(** * healthcheck: configuration, scrapers and the healthcheck manager

    A shallow embedding of the Go packages [config], [scraper] and
    [healthcheck], and of the start-up sequence of [cmd/healthcheck].

    Conventions.
    - A Go [int] is a [Z]; the program compares and prints these
      integers, and does arithmetic on one of them only: the interval of
      a scraper times [time.Second], an int64 product that wraps around
      ([int64]).
    - A Go [error] is identified with the text of its [Error()] method.
    - A Go function returning [(v, err)], every [return] of which sets
      exactly one of the two, is a [result]: [Ok v] for [(v, nil)] and
      [Err e] for [(nil, e)].
    - [fmt.Sprintf] and [fmt.Errorf] are string concatenation, with [%d]
      rendered by [pretty] (decimal digits, a minus sign in front of a
      negative number) and [%s], [%v], [%w] of an error rendered as its
      text.
    - Calls to [logrus] only write log lines and are left out.
    - [map[string]interface{}] is a [gmap string value].
    - What the program calls outside itself is a parameter: the decoders
      of [encoding/json], the HTTP stack, contexts and the clock.
    - The goroutines of the manager are lists of statements, run one
      statement at a time under any interleaving; a goroutine that panics
      runs its deferred calls and then ends the process. *)

From stdpp Require Import gmap strings list fin_maps pretty.
From Stdlib Require Import ZArith.

Open Scope Z_scope.

(** ** Go values shared by the packages *)

Definition error := string.

Inductive result (A : Type) : Type :=
| Ok (v : A)
| Err (e : error).
Arguments Ok {A} v.
Arguments Err {A} e.

Definition is_Err {A} (r : result A) : Prop :=
  match r with Err _ => True | Ok _ => False end.

(** [strings.Contains s sub]: [sub] occurs somewhere inside [s]. *)
Fixpoint Contains (s sub : string) : bool :=
  String.prefix sub s ||
  match s with
  | EmptyString => false
  | String _ rest => Contains rest sub
  end.

(** The values stored under [interface{}] in the details of a result. *)
Inductive value : Type :=
| VInt (n : Z)
| VString (s : string).

(** ** Package config *)

Module config.

Record HealthcheckScraper := {
  Type_ : string;                (* json:"healthcheck-scraper-type" *)
  ScrapeURL : string;            (* json:"scrape_url" *)
  PingURL : string;              (* json:"ping_url" *)
  ScrapeIntervalSeconds : Z      (* json:"scrape_interval_seconds" *)
}.

Record Config := { Scrapers : list HealthcheckScraper }.

(** The process environment; [os.Getenv] gives the empty string for a
    variable that is not set. *)
Definition Getenv (env : gmap string string) (key : string) : string :=
  default "" (env !! key).

Section NewConfig.

(** [json.Unmarshal] into a fresh slice of [HealthcheckScraper]. *)
Variable json_Unmarshal : string -> result (list HealthcheckScraper).

Definition NewConfig (env : gmap string string) : result Config :=
  let scrapersJSON := Getenv env "HEALTHCHECK_SCRAPERS" in
  if decide (scrapersJSON ≠ "") then
    match json_Unmarshal scrapersJSON with
    | Err err => Err ("failed to parse HEALTHCHECK_SCRAPERS JSON: " +:+ err)
    | Ok l => Ok {| Scrapers := l |}
    end
  else Ok {| Scrapers := [] |}.

End NewConfig.

End config.

(** ** Package scraper *)

Module scraper.

Record CloudflaredTunnelResponse := {
  Status : Z;                    (* json:"status" *)
  ReadyConnections : Z;          (* json:"readyConnections" *)
  ConnectorID : string           (* json:"connectorId" *)
}.

Record ScrapeResult := {
  Healthy : bool;
  Message : string;
  Timestamp : Z;
  Details : gmap string value
}.

(** [http.Client]; the program only sets its timeout (in seconds). *)
Record Client := { Timeout : Z }.

Record Response := { StatusCode : Z; Body : string }.

(** What lies outside the program: contexts with a deadline, the HTTP
    stack, the JSON decoder of the [/ready] payload and the clock. *)
Class Net := {
  ctx : Type;
  context_WithTimeout : Z -> ctx;
  Request : Type;
  http_NewRequestWithContext : ctx -> string -> string -> result Request;
  client_Do : Client -> Request -> result Response;
  json_Decode : string -> result CloudflaredTunnelResponse;
  time_Now : Z
}.

Record CloudflaredTunnelScraper := {
  scrapeURL : string;
  pingURL : string;
  scrapeIntervalSeconds : Z;
  client : Client
}.

Definition NewCloudflaredTunnelScraper
    (scrapeURL pingURL : string) (scrapeIntervalSeconds : Z)
    : CloudflaredTunnelScraper :=
  let scrapeIntervalSeconds :=
    if decide (scrapeIntervalSeconds <= 0) then 30 else scrapeIntervalSeconds in
  {| scrapeURL := scrapeURL;
     pingURL := pingURL;
     scrapeIntervalSeconds := scrapeIntervalSeconds;
     client := {| Timeout := 10 |} |}.

(** The [Scraper] interface. *)
Class Scraper `{Net} (T : Type) := {
  Type_ : T -> string;
  Scrape : T -> ctx -> result ScrapeResult;
  GetPingURL : T -> string;
  GetScrapeInterval : T -> Z
}.

Section CloudflaredTunnel.

Context `{Net}.

Definition cf_Type (c : CloudflaredTunnelScraper) : string :=
  "cloudflared-tunnel-connector".

Definition cf_GetPingURL (c : CloudflaredTunnelScraper) : string := pingURL c.

Definition cf_GetScrapeInterval (c : CloudflaredTunnelScraper) : Z :=
  scrapeIntervalSeconds c.

Definition cf_Scrape (c : CloudflaredTunnelScraper) (cx : ctx)
    : result ScrapeResult :=
  match http_NewRequestWithContext cx "GET" (scrapeURL c) with
  | Err err => Err ("failed to create request: " +:+ err)
  | Ok req =>
    match client_Do (client c) req with
    | Err err =>
      Ok {| Healthy := false;
            Message := "Failed to connect to " +:+ scrapeURL c +:+ ": " +:+ err;
            Timestamp := time_Now;
            Details := {[ "error" := VString err ]} |}
    | Ok resp =>
      if decide (StatusCode resp ≠ 200) then
        Ok {| Healthy := false;
              Message := "HTTP status " +:+ pretty (StatusCode resp)
                         +:+ " from " +:+ scrapeURL c;
              Timestamp := time_Now;
              Details := {[ "status_code" := VInt (StatusCode resp) ]} |}
      else
        match json_Decode (Body resp) with
        | Err err =>
          Ok {| Healthy := false;
                Message := "Failed to parse response from " +:+ scrapeURL c
                           +:+ ": " +:+ err;
                Timestamp := time_Now;
                Details := {[ "error" := VString err ]} |}
        | Ok tunnelResp =>
          let healthy :=
            bool_decide (Status tunnelResp = 200)
            && bool_decide (ReadyConnections tunnelResp > 0) in
          let message :=
            if healthy then
              "Tunnel healthy with " +:+ pretty (ReadyConnections tunnelResp)
              +:+ " ready connections"
            else
              "Tunnel unhealthy: status=" +:+ pretty (Status tunnelResp)
              +:+ ", readyConnections=" +:+ pretty (ReadyConnections tunnelResp) in
          Ok {| Healthy := healthy;
                Message := message;
                Timestamp := time_Now;
                Details :=
                  <[ "status" := VInt (Status tunnelResp) ]>
                  (<[ "readyConnections" := VInt (ReadyConnections tunnelResp) ]>
                   {[ "connectorId" := VString (ConnectorID tunnelResp) ]}) |}
        end
    end
  end.

#[export] Instance CloudflaredTunnelScraper_Scraper
  : Scraper CloudflaredTunnelScraper := {
  Type_ := cf_Type;
  Scrape := cf_Scrape;
  GetPingURL := cf_GetPingURL;
  GetScrapeInterval := cf_GetScrapeInterval
}.

(** A value of interface type [Scraper]: an object with its methods. *)
Record ScraperI := {
  impl : Type;
  methods : Scraper impl;
  object : impl
}.

Definition I_Type (s : ScraperI) : string :=
  @Type_ _ _ (methods s) (object s).

Definition I_Scrape (s : ScraperI) (cx : ctx) : result ScrapeResult :=
  @Scrape _ _ (methods s) (object s) cx.

Definition I_GetPingURL (s : ScraperI) : string :=
  @GetPingURL _ _ (methods s) (object s).

Definition I_GetScrapeInterval (s : ScraperI) : Z :=
  @GetScrapeInterval _ _ (methods s) (object s).

Definition as_Scraper (c : CloudflaredTunnelScraper) : ScraperI :=
  {| impl := CloudflaredTunnelScraper;
     methods := CloudflaredTunnelScraper_Scraper;
     object := c |}.

(** The factory holds nothing but the logger. *)
Record Factory := {}.

Definition NewFactory : Factory := Build_Factory.

Definition CreateScraper (f : Factory) (scraperConfig : config.HealthcheckScraper)
    : result ScraperI :=
  if decide (config.Type_ scraperConfig = "cloudflared-tunnel-connector") then
    Ok (as_Scraper
          (NewCloudflaredTunnelScraper
             (config.ScrapeURL scraperConfig)
             (config.PingURL scraperConfig)
             (config.ScrapeIntervalSeconds scraperConfig)))
  else
    Err ("unknown scraper type: " +:+ config.Type_ scraperConfig).

End CloudflaredTunnel.

End scraper.

(** ** Package healthcheck *)

Module healthcheck.

Import scraper.

(** The one setting of the Go runtime the manager's goroutines can tell
    apart. Since Go 1.23 [Stop] on a ticker also takes away a tick that
    waits in the ticker's channel; under [GODEBUG=asynctimerchan=1], and
    in a module whose go.mod asks for an older Go, the tick stays. *)
Class Runtime := {
  asynctimerchan : bool
}.

Section Manager.

Context `{Net} `{Runtime}.

(** The manager. [stopChan] is a channel nothing is ever sent on, so its
    state is whether it has been closed; [wg] is the counter of the
    [sync.WaitGroup]. *)
Record Manager := {
  config : config.Config;
  factory : Factory;
  scrapers : list ScraperI;
  httpClient : Client;
  stopChan : bool;
  wg : Z
}.

Definition NewManager (cfg : config.Config) : Manager :=
  {| config := cfg;
     factory := NewFactory;
     scrapers := [];
     httpClient := {| Timeout := 10 |};
     stopChan := false;
     wg := 0 |}.

Definition set_scrapers (m : Manager) (l : list ScraperI) : Manager :=
  {| config := config m; factory := factory m; scrapers := l;
     httpClient := httpClient m; stopChan := stopChan m; wg := wg m |}.

Definition set_stopChan (m : Manager) (b : bool) : Manager :=
  {| config := config m; factory := factory m; scrapers := scrapers m;
     httpClient := httpClient m; stopChan := b; wg := wg m |}.

Definition set_wg (m : Manager) (n : Z) : Manager :=
  {| config := config m; factory := factory m; scrapers := scrapers m;
     httpClient := httpClient m; stopChan := stopChan m; wg := n |}.

(** The [for ... range m.config.Scrapers] loop of [Initialize], from the
    entries still to visit; the result is the manager as the call leaves
    it and the returned error ([None] for [nil]). *)
Fixpoint Initialize_range (m : Manager) (cfgs : list config.HealthcheckScraper)
    : Manager * option error :=
  match cfgs with
  | [] => (m, None)
  | scraperConfig :: rest =>
    match CreateScraper (factory m) scraperConfig with
    | Err err =>
      (m, Some ("failed to create scraper " +:+ config.Type_ scraperConfig
                +:+ ": " +:+ err))
    | Ok s => Initialize_range (set_scrapers m (scrapers m ++ [s])) rest
    end
  end.

Definition Initialize (m : Manager) : Manager * option error :=
  Initialize_range m (config.Scrapers (config m)).

(** The scraper the factory builds for an entry of the one known kind. *)
Definition probe_of (c : config.HealthcheckScraper) : ScraperI :=
  as_Scraper
    (NewCloudflaredTunnelScraper (config.ScrapeURL c) (config.PingURL c)
       (config.ScrapeIntervalSeconds c)).

Definition known_kind (c : config.HealthcheckScraper) : Prop :=
  config.Type_ c = "cloudflared-tunnel-connector".

(** [pingSuccessURL]: the URLs a GET has been sent to. *)
Definition pingSuccessURL (m : Manager) (url : string) : list string :=
  if decide (url = "") then []
  else
    match http_NewRequestWithContext (context_WithTimeout 10) "GET" url with
    | Err _ => []
    | Ok req =>
      match client_Do (httpClient m) req with
      | Err _ => [url]
      | Ok _ => [url]
      end
    end.

(** [runSingleHealthcheck]: one check under a 30 second deadline, and the
    success ping when the result is healthy. *)
Definition runSingleHealthcheck (m : Manager) (s : ScraperI) : list string :=
  match I_Scrape s (context_WithTimeout 30) with
  | Err _ => []
  | Ok res =>
    if Healthy res then pingSuccessURL m (I_GetPingURL s) else []
  end.

#[local] Set Warnings "-register-all".

(** *** Durations

    [time.Duration] is an int64 count of nanoseconds, and Go's integer
    arithmetic wraps around: [int64] is the value an int64 holds after an
    operation whose exact result is [z]. On the platforms the image is
    built for, [int] has 64 bits as well. *)
Definition int64 (z : Z) : Z :=
  (z + 2 ^ 63) `mod` 2 ^ 64 - 2 ^ 63.

(** [time.Second]. *)
Definition Second : Z := 1000000000.

(** The interval [healthcheckLoop] takes for a scraper:
    [interval := s.GetScrapeInterval()], set to 30 when it is not
    positive. *)
Definition tickerInterval (s : ScraperI) : Z :=
  if decide (I_GetScrapeInterval s <= 0) then 30 else I_GetScrapeInterval s.

(** [time.Duration(interval) * time.Second], the argument [healthcheckLoop]
    hands to [time.NewTicker]: an int64 product. *)
Definition tickerDuration (s : ScraperI) : Z :=
  int64 (tickerInterval s * Second).

(** *** The goroutines of the manager

    The statements the concurrent part of the manager is made of. A
    goroutine is the list of statements it has still to execute; the
    deferred calls of the function it runs stand after [Return], the last
    deferred first. *)
Inductive stmt : Type :=
| WgAdd (delta : Z)                        (* m.wg.Add(delta) *)
| WgDone                                   (* m.wg.Done() *)
| WgWait                                   (* m.wg.Wait() *)
| CloseStop                                (* close(m.stopChan) *)
| RecvStop                                 (* <-m.stopChan *)
| NewTicker (k : nat) (d : Z)              (* ticker := time.NewTicker(d) *)
| TickerStop (k : nat)                     (* ticker.Stop() *)
| Go (body : list stmt)                    (* go f(...) *)
| Call_runSingleHealthcheck (s : ScraperI) (* m.runSingleHealthcheck(s) *)
| ForSelect (k : nat) (onTick : list stmt)
    (* for { select { case <-ticker.C: onTick
                      case <-m.stopChan: return } } *)
| Return                                   (* the function body is over *)
| RangeTickers
    (* for _, ticker := range scraperTickers { ticker.Stop() } *)
| Crash.                                   (* an unrecovered panic ends the
                                              process *)

(** The goroutine started for one scraper: the ticker loop. *)
Definition tickerLoop (k : nat) (s : ScraperI) : list stmt :=
  [ForSelect k [Call_runSingleHealthcheck s]].

(** The body of the [for _, s := range m.scrapers] loop of
    [healthcheckLoop], for the scrapers from index [k] on. *)
Fixpoint healthcheckLoop_range (k : nat) (ss : list ScraperI) : list stmt :=
  match ss with
  | [] => []
  | s :: rest =>
    [NewTicker k (tickerDuration s);
     Go [Call_runSingleHealthcheck s];
     Go (tickerLoop k s)]
    ++ healthcheckLoop_range (S k) rest
  end.

(** [healthcheckLoop], over the scrapers the manager holds when [Start]
    is called (nothing changes [m.scrapers] afterwards). Its two [defer]
    statements come first in the source, before anything that can panic,
    so the deferred calls are the same wherever the function is left:
    the closure that stops the tickers, then [m.wg.Done()]. *)
Definition healthcheckLoop (m : Manager) : list stmt :=
  healthcheckLoop_range 0 (scrapers m)
  ++ [RecvStop; Return; RangeTickers; WgDone].

Definition Start (m : Manager) : list stmt :=
  [WgAdd 1; Go (healthcheckLoop m)].

Definition Stop : list stmt :=
  [CloseStop; WgWait].

(** A ticker: its period in nanoseconds, whether it still runs, and
    whether a tick sits in its channel [C], which has room for one. *)
Record Ticker := {
  period : Z;
  running : bool;
  pending : bool
}.

(** [tickers] holds the tickers created so far, by the index of their
    scraper. The map [scraperTickers] of the source is keyed by the
    scraper itself and holds the same tickers when the scrapers are
    distinct objects, as [Initialize] builds them. [panicked] is set once
    a goroutine has panicked. *)
Record State := {
  mgr : Manager;
  tickers : gmap nat Ticker;
  goroutines : list (list stmt);
  pinged : list string;
  panicked : bool
}.

Definition set_mgr (st : State) (m : Manager) : State :=
  {| mgr := m; tickers := tickers st; goroutines := goroutines st;
     pinged := pinged st; panicked := panicked st |}.

Definition set_tickers (st : State) (t : gmap nat Ticker) : State :=
  {| mgr := mgr st; tickers := t; goroutines := goroutines st;
     pinged := pinged st; panicked := panicked st |}.

Definition set_goroutines (st : State) (g : list (list stmt)) : State :=
  {| mgr := mgr st; tickers := tickers st; goroutines := g;
     pinged := pinged st; panicked := panicked st |}.

Definition add_pinged (st : State) (l : list string) : State :=
  {| mgr := mgr st; tickers := tickers st; goroutines := goroutines st;
     pinged := pinged st ++ l; panicked := panicked st |}.

Definition panic (st : State) : State :=
  {| mgr := mgr st; tickers := tickers st; goroutines := goroutines st;
     pinged := pinged st; panicked := true |}.

(** What a scheduler can make happen next. A tick that arrives while
    one is still waiting in the channel is dropped. *)
Inductive action : Type :=
| Fire (k : nat)       (* the runtime puts a tick in the channel of ticker k *)
| Run (g : nat)        (* goroutine g executes its next statement; at a
                          select it takes the case of the stop channel *)
| RunTick (g : nat).   (* goroutine g, at a select, takes the ticker case *)

(** Goroutine [g] has executed its first statement and goes on with [k]. *)
Definition continue (st : State) (g : nat) (k : list stmt) : State :=
  set_goroutines st (<[g := k]> (goroutines st)).

(** The deferred calls of the function a goroutine is in: what stands
    after its [Return]. *)
Fixpoint deferred (k : list stmt) : list stmt :=
  match k with
  | [] => []
  | Return :: k' => k'
  | _ :: k' => deferred k'
  end.

(** Goroutine [g] panics, [k] being what it had still to execute: the
    rest of the function body is given up, the deferred calls run, and
    then the process ends. Nothing in the program recovers. *)
Definition raise (st : State) (g : nat) (k : list stmt) : State :=
  continue (panic st) g (deferred k ++ [Crash]).

(** The process has ended: none of its goroutines and tickers is left. *)
Definition crash (st : State) : State :=
  {| mgr := mgr st; tickers := ∅; goroutines := [];
     pinged := pinged st; panicked := true |}.

(** One statement of goroutine [g], with [k] what follows it; [None] when
    the goroutine is blocked. The Go runtime panics when the counter of a
    wait group would go below zero, when a closed channel is closed
    again, when [time.NewTicker] is given a duration that is not
    positive, and on [Stop] of a ticker that was never made; [Wait] blocks
    until the counter is zero, and a receive from a channel nothing is
    sent on blocks until the channel is closed. The range over the map of
    tickers visits the tickers the map holds when the loop begins, in
    the order [elements] lists them (Go leaves the order open). *)
Definition exec_stmt (st : State) (g : nat) (i : stmt) (k : list stmt)
    : option State :=
  match i with
  | WgAdd delta =>
    if decide (wg (mgr st) + delta < 0) then Some (raise st g k)
    else Some (continue (set_mgr st (set_wg (mgr st) (wg (mgr st) + delta))) g k)
  | WgDone =>
    if decide (wg (mgr st) - 1 < 0) then Some (raise st g k)
    else Some (continue (set_mgr st (set_wg (mgr st) (wg (mgr st) - 1))) g k)
  | WgWait =>
    if decide (wg (mgr st) = 0) then Some (continue st g k) else None
  | CloseStop =>
    if stopChan (mgr st) then Some (raise st g k)
    else Some (continue (set_mgr st (set_stopChan (mgr st) true)) g k)
  | RecvStop =>
    if stopChan (mgr st) then Some (continue st g k) else None
  | NewTicker t d =>
    if decide (d <= 0) then Some (raise st g k)
    else Some (continue
                 (set_tickers st
                    (<[t := {| period := d; running := true;
                               pending := false |}]> (tickers st)))
                 g k)
  | TickerStop t =>
    match tickers st !! t with
    | Some tk =>
      Some (continue
              (set_tickers st
                 (<[t := {| period := period tk; running := false;
                            pending := asynctimerchan && pending tk |}]>
                    (tickers st)))
              g k)
    | None => Some (raise st g k)
    end
  | Go body =>
    Some (set_goroutines st (<[g := k]> (goroutines st) ++ [body]))
  | Call_runSingleHealthcheck s =>
    Some (continue (add_pinged st (runSingleHealthcheck (mgr st) s)) g k)
  | ForSelect _ _ =>
    if stopChan (mgr st) then Some (continue st g []) else None
  | Return => Some (continue st g k)
  | RangeTickers =>
    Some (continue st g ((TickerStop <$> elements (dom (tickers st))) ++ k))
  | Crash => Some (crash st)
  end.

(** The ticker case of the select goroutine [g] is at. *)
Definition exec_tick (st : State) (g : nat) (i : stmt) (k : list stmt)
    : option State :=
  match i with
  | ForSelect t onTick =>
    match tickers st !! t with
    | Some tk =>
      if pending tk then
        Some (continue
                (set_tickers st
                   (<[t := {| period := period tk; running := running tk;
                              pending := false |}]> (tickers st)))
                g (onTick ++ ForSelect t onTick :: k))
      else None
    | None => None
    end
  | _ => None
  end.

(** One action. While a panicking goroutine runs its deferred calls the
    other goroutines go on; once the process has ended nothing is left
    that could take a step. *)
Definition exec (a : action) (st : State) : option State :=
  match a with
  | Fire t =>
    match tickers st !! t with
    | Some tk =>
      if running tk then
        Some (set_tickers st
                (<[t := {| period := period tk; running := true;
                           pending := true |}]> (tickers st)))
      else None
    | None => None
    end
  | Run g =>
    match goroutines st !! g with
    | Some (i :: k) => exec_stmt st g i k
    | _ => None
    end
  | RunTick g =>
    match goroutines st !! g with
    | Some (i :: k) => exec_tick st g i k
    | _ => None
    end
  end.

(** A schedule: the actions taken, in order. *)
Fixpoint run (acts : list action) (st : State) : option State :=
  match acts with
  | [] => Some st
  | a :: rest =>
    match exec a st with
    | Some st' => run rest st'
    | None => None
    end
  end.

(** The caller of the manager is goroutine 0: it calls [Start] and later
    [Stop]; the goroutine of [healthcheckLoop] is then goroutine 1. *)
Definition boot (m : Manager) : State :=
  {| mgr := m;
     tickers := ∅;
     goroutines := [Start m ++ Stop];
     pinged := [];
     panicked := false |}.

Definition reachable (m : Manager) (st : State) : Prop :=
  ∃ acts, run acts (boot m) = Some st.

(** [Stop] has returned to its caller. *)
Definition Stop_returned (st : State) : Prop :=
  goroutines st !! 0%nat = Some [].

(** Goroutine [g] runs a ticker loop and has not left it. *)
Definition in_tickerLoop (st : State) (g : nat) : Prop :=
  ∃ k t body, goroutines st !! g = Some k ∧ ForSelect t body ∈ k.

(** Goroutine [g] waits at the select of its ticker loop. *)
Definition at_select (st : State) (g : nat) : Prop :=
  ∃ t body k, goroutines st !! g = Some (ForSelect t body :: k).

(** Neither [Start] nor [Stop] has been called on the manager. *)
Definition fresh (m : Manager) : Prop :=
  stopChan m = false ∧ wg m = 0.

(** No interval makes the duration of a ticker wrap around to a value
    that is not positive. *)
Definition durations_positive (m : Manager) : Prop :=
  Forall (λ s, 0 < tickerDuration s) (scrapers m).

(** The action is the return of a check: a goroutine gets through its
    call of [runSingleHealthcheck]. *)
Definition is_check (a : action) (st : State) : bool :=
  match a with
  | Run g =>
    match goroutines st !! g with
    | Some (Call_runSingleHealthcheck _ :: _) => true
    | _ => false
    end
  | _ => false
  end.

(** A schedule on which every check hangs: no call of
    [runSingleHealthcheck] returns. *)
Fixpoint run_hung (acts : list action) (st : State) : option State :=
  match acts with
  | [] => Some st
  | a :: rest =>
    if is_check a st then None
    else
      match exec a st with
      | Some st' => run_hung rest st'
      | None => None
      end
  end.

(** *** The states the goroutines go through

    Goroutine 0 has executed [pm] statements of [Start] and [Stop]. *)
Definition main_cont (m : Manager) (pm : nat) : list stmt :=
  drop pm (Start m ++ Stop).

(** Where [healthcheckLoop] is: in the range loop at scraper [j] with [r]
    statements of the iteration executed (at [j] equal to the number of
    scrapers it waits for the stop channel); at its [Return]; at the
    deferred range over the tickers; in that range, with the tickers of
    [rest] still to stop; past [m.wg.Done()]. In the deferred calls [pk]
    tells whether the function was left by a panic, and [c] is the number
    of tickers it had created. *)
Inductive phase : Type :=
| Ranging (j r : nat)
| Returning
| Deferred (pk : bool) (c : nat)
| Stopping (pk : bool) (c : nat) (rest : list nat)
| Finished (pk : bool) (c : nat).

Definition pk_of (ph : phase) : bool :=
  match ph with
  | Ranging _ _ | Returning => false
  | Deferred pk _ | Stopping pk _ _ | Finished pk _ => pk
  end.

#[export] Instance phase_eq_dec : EqDecision phase.
Proof. solve_decision. Defined.

Definition is_Finished (ph : phase) : bool :=
  match ph with Finished _ _ => true | _ => false end.

(** [healthcheckLoop] has returned: nothing is left for its goroutine. *)
Definition returned (ph : phase) : bool :=
  match ph with Finished false _ => true | _ => false end.

Definition loop_rest (m : Manager) (j : nat) : list stmt :=
  healthcheckLoop_range j (drop j (scrapers m))
  ++ [RecvStop; Return; RangeTickers; WgDone].

(** What a goroutine that panicked executes last. *)
Definition crash_tail (pk : bool) : list stmt :=
  if pk then [Crash] else [].

Definition loop_cont (m : Manager) (ph : phase) : list stmt :=
  match ph with
  | Ranging j r => drop r (loop_rest m j)
  | Returning => [Return; RangeTickers; WgDone]
  | Deferred pk _ => [RangeTickers; WgDone] ++ crash_tail pk
  | Stopping pk _ rest => (TickerStop <$> rest) ++ [WgDone] ++ crash_tail pk
  | Finished pk _ => crash_tail pk
  end.

(** The tickers created when the function is left: all of them, or, after
    a panic, those of the scrapers before the one whose duration is not
    positive. *)
Definition count_ok (m : Manager) (pk : bool) (c : nat) : Prop :=
  if pk then ∃ s, scrapers m !! c = Some s ∧ tickerDuration s <= 0
  else c = length (scrapers m).

Definition phase_ok (m : Manager) (ph : phase) : Prop :=
  match ph with
  | Ranging j r =>
    (j < length (scrapers m) ∧ r < 3)%nat ∨ (j = length (scrapers m) ∧ r = 0%nat)
  | Returning => True
  | Deferred pk c | Finished pk c => count_ok m pk c
  | Stopping pk c rest =>
    count_ok m pk c ∧ NoDup rest ∧ ∀ t, t ∈ rest -> (t < c)%nat
  end.

(** The phase after the next statement of [healthcheckLoop], and the
    number of statements it has still to execute when it does not
    panic. *)
Definition next_phase (m : Manager) (st : State) (ph : phase) : phase :=
  match ph with
  | Ranging j r =>
    match scrapers m !! j with
    | Some s =>
      match r with
      | O => if decide (tickerDuration s <= 0) then Deferred true j
             else Ranging j 1
      | S O => Ranging j 2
      | _ => Ranging (S j) 0
      end
    | None => Returning
    end
  | Returning => Deferred false (length (scrapers m))
  | Deferred pk c => Stopping pk c (elements (dom (tickers st)))
  | Stopping pk c [] => Finished pk c
  | Stopping pk c (_ :: rest) => Stopping pk c rest
  | Finished pk c => Finished pk c
  end.

Definition steps_left (m : Manager) (ph : phase) : nat :=
  match ph with
  | Ranging j r => 3 * (length (scrapers m) - j) - r + length (scrapers m) + 4
  | Returning => length (scrapers m) + 3
  | Deferred _ c => c + 2
  | Stopping _ _ rest => length rest + 1
  | Finished _ _ => 0
  end.

(** The goroutines and the tickers [healthcheckLoop] has created so far. *)
Definition spawn_count (m : Manager) (ph : phase) : nat :=
  match ph with
  | Ranging j r => 2 * j + (r - 1)
  | Returning => 2 * length (scrapers m)
  | Deferred _ c | Stopping _ c _ | Finished _ c => 2 * c
  end.

Definition ticker_count (m : Manager) (ph : phase) : nat :=
  match ph with
  | Ranging j r => j + (match r with O => 0 | _ => 1 end)
  | Returning => length (scrapers m)
  | Deferred _ c | Stopping _ c _ | Finished _ c => c
  end.

(** Ticker [t] still runs: the deferred range has not stopped it. *)
Definition running_in (ph : phase) (t : nat) : bool :=
  match ph with
  | Ranging _ _ | Returning | Deferred _ _ => true
  | Stopping _ _ rest => bool_decide (t ∈ rest)
  | Finished _ _ => false
  end.

(** [healthcheckLoop] has received from the stop channel. *)
Definition past_recv (ph : phase) : Prop :=
  match ph with
  | Ranging _ _ => False
  | Returning => True
  | Deferred pk _ | Stopping pk _ _ | Finished pk _ => pk = false
  end.

Definition wg_of (pm : nat) (ph : phase) : Z :=
  match pm with
  | O => 0
  | _ => if is_Finished ph then 0 else 1
  end.

(** The [i]-th goroutine started by [healthcheckLoop] belongs to scraper
    [i / 2]: the even ones run the initial check, the odd ones the ticker
    loop, which is at its select or in a check. *)
Definition worker_ok (m : Manager) (i : nat) (k : list stmt) : Prop :=
  ∃ j s, scrapers m !! j = Some s
    ∧ ((i = (2 * j)%nat ∧ (k = [Call_runSingleHealthcheck s] ∨ k = []))
       ∨ (i = (2 * j + 1)%nat
          ∧ (k = tickerLoop j s
             ∨ k = Call_runSingleHealthcheck s :: tickerLoop j s
             ∨ k = []))).

(** Ticker [t] is the ticker of scraper [t]: its period is the duration
    computed for that scraper, which is positive. *)
Definition tickers_ok (m : Manager) (ph : phase) (st : State) : Prop :=
  ∀ t tk, tickers st !! t = Some tk ->
    ∃ s, scrapers m !! t = Some s
      ∧ period tk = tickerDuration s
      ∧ 0 < period tk
      ∧ running tk = running_in ph t.

(** Every ping went to the ping URL of a scraper of the manager whose
    check is healthy. *)
Definition pinged_ok (m : Manager) (st : State) : Prop :=
  ∀ u, u ∈ pinged st ->
    ∃ s r, s ∈ scrapers m
      ∧ u = I_GetPingURL s ∧ u ≠ ""
      ∧ I_Scrape s (context_WithTimeout 30) = Ok r ∧ Healthy r = true.

Record InvAt (m : Manager) (pm : nat) (ph : phase)
    (spawned : list (list stmt)) (st : State) : Prop := {
  inv_panicked : panicked st = pk_of ph;
  inv_pm : (pm ≤ 4)%nat;
  inv_stopChan : stopChan (mgr st) = bool_decide (3 ≤ pm)%nat;
  inv_goroutines :
    goroutines st
    = main_cont m pm
      :: (if decide (pm < 2)%nat then [] else loop_cont m ph :: spawned);
  inv_early : (pm < 2)%nat -> ph = Ranging 0 0 ∧ spawned = [];
  inv_wg : wg (mgr st) = wg_of pm ph;
  inv_phase : phase_ok m ph;
  inv_joined : pm = 4%nat -> is_Finished ph = true;
  inv_closed : past_recv ph -> (3 ≤ pm)%nat;
  inv_count : length spawned = spawn_count m ph;
  inv_workers : ∀ i k, spawned !! i = Some k -> worker_ok m i k;
  inv_alive :
    stopChan (mgr st) = false -> ∀ j, spawned !! (2 * j + 1)%nat ≠ Some [];
  inv_tickers : ∀ t, is_Some (tickers st !! t) ↔ (t < ticker_count m ph)%nat;
  inv_tickers_ok : tickers_ok m ph st;
  inv_pinged : pinged_ok m st
}.

(** The process has ended in a panic. *)
Definition Dead (m : Manager) (st : State) : Prop :=
  goroutines st = [] ∧ tickers st = ∅ ∧ panicked st = true
  ∧ wg (mgr st) = 0 ∧ pinged_ok m st ∧ ¬ durations_positive m.

Definition Inv (m : Manager) (st : State) : Prop :=
  (∃ pm ph spawned, InvAt m pm ph spawned st) ∨ Dead m st.

(** The actions of goroutine [g]. *)
Definition action_of (g : nat) (a : action) : Prop :=
  a = Run g ∨ a = RunTick g.

(** The caller of the manager calls [Stop] once more. *)
Definition Stop_again (st : State) : State :=
  continue st 0 Stop.

End Manager.

End healthcheck.

(** ** Command healthcheck: the start-up sequence of [main] *)

Module cmd.

Import scraper healthcheck.

Section main.

Context `{Net}.

Variable json_Unmarshal : string -> result (list config.HealthcheckScraper).

(** How [main] leaves its start-up: [logger.Fatal] ends the process with
    the given error, an empty scraper list makes [main] return, and
    otherwise the manager is started. *)
Inductive startup : Type :=
| Fatal (msg : string) (err : error)
| Return
| Started (st : State).

Definition main (env : gmap string string) : startup :=
  match config.NewConfig json_Unmarshal env with
  | Err err => Fatal "Failed to load configuration" err
  | Ok cfg =>
    if decide (length (config.Scrapers cfg) = 0%nat) then Return
    else
      match Initialize (NewManager cfg) with
      | (_, Some err) => Fatal "Failed to initialize healthcheck manager" err
      | (manager, None) => Started (boot manager)
      end
  end.

End main.

End cmd.

(** ** Test doubles

    The servers and payloads of the repository's tests, as an instance of
    [Net], and a decoder of the scraper list for the values the tests and
    the README give to [HEALTHCHECK_SCRAPERS]. *)

Module testdata.

Import scraper.

Definition healthy_body : string :=
  "{status:200,readyConnections:4,connectorId:test-id}".

Definition zero_body : string :=
  "{status:200,readyConnections:0,connectorId:test-id}".

Definition server (url : string) : result Response :=
  if decide (url = "http://healthy.test/ready") then
    Ok {| StatusCode := 200; Body := healthy_body |}
  else if decide (url = "http://zero.test/ready") then
    Ok {| StatusCode := 200; Body := zero_body |}
  else if decide (url = "http://error.test/ready") then
    Ok {| StatusCode := 500; Body := "" |}
  else if decide (url = "http://garbage.test/ready") then
    Ok {| StatusCode := 200; Body := "invalid json" |}
  else Err "dial tcp: connect: connection refused".

Definition decode (body : string) : result CloudflaredTunnelResponse :=
  if decide (body = healthy_body) then
    Ok {| Status := 200; ReadyConnections := 4; ConnectorID := "test-id" |}
  else if decide (body = zero_body) then
    Ok {| Status := 200; ReadyConnections := 0; ConnectorID := "test-id" |}
  else Err "invalid character 'i' looking for beginning of value".

#[export] Instance test_Net : Net := {|
  ctx := Z;
  context_WithTimeout := λ seconds, seconds;
  Request := string;
  http_NewRequestWithContext := λ _ _ url,
    if String.prefix ":" url then Err "parse: missing protocol scheme"
    else Ok url;
  client_Do := λ _ req, server req;
  json_Decode := decode;
  time_Now := 0
|}.

(** The runtime of the image: Go 1.24, timer channels as since Go 1.23. *)
#[export] Instance test_Runtime : healthcheck.Runtime := {|
  healthcheck.asynctimerchan := false
|}.

(** The context [runSingleHealthcheck] hands to a check. *)
Definition deadline : ctx := context_WithTimeout 30.

Definition tunnel (interval : Z) : config.HealthcheckScraper :=
  {| config.Type_ := "cloudflared-tunnel-connector";
     config.ScrapeURL := "http://healthy.test/ready";
     config.PingURL := "http://localhost:8081/ping";
     config.ScrapeIntervalSeconds := interval |}.

Definition unknown : config.HealthcheckScraper :=
  {| config.Type_ := "unknown-scraper-type";
     config.ScrapeURL := "http://localhost:8080/ready";
     config.PingURL := "http://localhost:8081/ping";
     config.ScrapeIntervalSeconds := 0 |}.

Definition Unmarshal (s : string) : result (list config.HealthcheckScraper) :=
  if decide (s = "[]") then Ok []
  else if decide (s = "[tunnel]") then Ok [tunnel 120]
  else if decide (s = "") then Err "unexpected end of JSON input"
  else Err "invalid character 'i' looking for beginning of value".

(** A manager with one scraper, initialized; the schedule that takes it
    through [Start] and the range loop of [healthcheckLoop] until a first
    tick has arrived, and the one in which the ticker loop takes that
    tick and [Stop] is then called and returns. *)
Definition manager1 : healthcheck.Manager :=
  (healthcheck.Initialize
     (healthcheck.NewManager {| config.Scrapers := [tunnel 120] |})).1.

Definition probe1 : ScraperI := healthcheck.probe_of (tunnel 120).

Definition until_tick : list healthcheck.action :=
  [healthcheck.Run 0;      (* m.wg.Add(1) *)
   healthcheck.Run 0;      (* go m.healthcheckLoop() *)
   healthcheck.Run 1;      (* ticker := time.NewTicker(...) *)
   healthcheck.Run 1;      (* go m.runSingleHealthcheck(s) *)
   healthcheck.Run 1;      (* go func(...) {...}(s, ticker) *)
   healthcheck.Fire 0].    (* a tick arrives *)

Definition tick_then_stop : list healthcheck.action :=
  until_tick
  ++ [healthcheck.RunTick 3;  (* case <-ticker.C: the check begins *)
      healthcheck.Run 0;      (* close(m.stopChan) *)
      healthcheck.Run 1;      (* <-m.stopChan *)
      healthcheck.Run 1;      (* healthcheckLoop returns *)
      healthcheck.Run 1;      (* range scraperTickers *)
      healthcheck.Run 1;      (* ticker.Stop() *)
      healthcheck.Run 1;      (* m.wg.Done() *)
      healthcheck.Run 0].     (* m.wg.Wait() returns *)

(** [Start], the range loop, and [Stop] called and returning before the
    ticker loop has run at all. *)
Definition start_then_stop : list healthcheck.action :=
  [healthcheck.Run 0;      (* m.wg.Add(1) *)
   healthcheck.Run 0;      (* go m.healthcheckLoop() *)
   healthcheck.Run 1;      (* ticker := time.NewTicker(...) *)
   healthcheck.Run 1;      (* go m.runSingleHealthcheck(s) *)
   healthcheck.Run 1;      (* go func(...) {...}(s, ticker) *)
   healthcheck.Run 0;      (* close(m.stopChan) *)
   healthcheck.Run 1;      (* <-m.stopChan *)
   healthcheck.Run 1;      (* healthcheckLoop returns *)
   healthcheck.Run 1;      (* range scraperTickers *)
   healthcheck.Run 1;      (* ticker.Stop() *)
   healthcheck.Run 1;      (* m.wg.Done() *)
   healthcheck.Run 0].     (* m.wg.Wait() returns *)

Definition state_after (acts : list healthcheck.action) : healthcheck.State :=
  default (healthcheck.boot manager1)
    (healthcheck.run acts (healthcheck.boot manager1)).

(** A manager with two scrapers, the second with an interval whose
    duration in nanoseconds does not fit an int64, and the schedule in
    which [healthcheckLoop] comes to that scraper. *)
Definition manager2 : healthcheck.Manager :=
  (healthcheck.Initialize
     (healthcheck.NewManager
        {| config.Scrapers := [tunnel 120; tunnel 9223372037] |})).1.

Definition until_overflow : list healthcheck.action :=
  [healthcheck.Run 0;      (* m.wg.Add(1) *)
   healthcheck.Run 0;      (* go m.healthcheckLoop() *)
   healthcheck.Run 1;      (* ticker := time.NewTicker(...), 120 s *)
   healthcheck.Run 1;      (* go m.runSingleHealthcheck(s) *)
   healthcheck.Run 1;      (* go func(...) {...}(s, ticker) *)
   healthcheck.Run 1].     (* time.NewTicker(...) panics *)

Definition overflow_then_crash : list healthcheck.action :=
  until_overflow
  ++ [healthcheck.Run 1;   (* deferred: range scraperTickers *)
      healthcheck.Run 1;   (* deferred: ticker.Stop() *)
      healthcheck.Run 1;   (* deferred: m.wg.Done() *)
      healthcheck.Run 1].  (* the process ends *)

Definition state_after2 (acts : list healthcheck.action) : healthcheck.State :=
  default (healthcheck.boot manager2)
    (healthcheck.run acts (healthcheck.boot manager2)).

End testdata.

(** * Properties *)

(** ** Strings *)

Lemma append_cons (a : Ascii.ascii) (p s : string) :
  String a p +:+ s = String a (p +:+ s).
Proof. reflexivity. Qed.

Lemma prefix_app (s q : string) : String.prefix s (s +:+ q) = true.
Proof.
  induction s as [|a s IH]; [by destruct q|].
  rewrite append_cons. cbn [String.prefix].
  destruct (Ascii.ascii_dec a a); [done | congruence].
Qed.

Lemma Contains_prefix (s sub : string) :
  String.prefix sub s = true -> Contains s sub = true.
Proof. intros Hp. destruct s; cbn [Contains]; rewrite Hp; done. Qed.

Lemma Contains_middle (p s q : string) : Contains (p +:+ s +:+ q) s = true.
Proof.
  induction p as [|a p IH].
  - change ("" +:+ s +:+ q) with (s +:+ q). apply Contains_prefix, prefix_app.
  - rewrite append_cons. cbn [Contains]. rewrite IH. apply orb_true_r.
Qed.

Lemma append_nil_r (s : string) : s +:+ "" = s.
Proof.
  induction s as [|a s IH]; [reflexivity|]. by rewrite append_cons, IH.
Qed.

Lemma Contains_suffix (p s : string) : Contains (p +:+ s) s = true.
Proof.
  pose proof (Contains_middle p s "") as Hm. by rewrite append_nil_r in Hm.
Qed.

(** ** The cloudflared tunnel scraper *)

Section ScrapeFacts.

Import scraper.

Context `{Net}.

(** C1. When the GET succeeds with status 200 and the body decodes, the
    result is healthy exactly when the decoded status is 200 and there is
    at least one ready connection; the message is the healthy or the
    unhealthy one accordingly, and the details hold the three decoded
    fields and nothing else. *)
Theorem Scrape_decoded_response
    (c : CloudflaredTunnelScraper) (cx : ctx) (req : Request)
    (resp : Response) (t : CloudflaredTunnelResponse) :
  http_NewRequestWithContext cx "GET" (scrapeURL c) = Ok req ->
  client_Do (client c) req = Ok resp ->
  StatusCode resp = 200 ->
  json_Decode (Body resp) = Ok t ->
  ∃ r : ScrapeResult,
    Scrape c cx = Ok r
    ∧ (Healthy r = true ↔ Status t = 200 ∧ ReadyConnections t > 0)
    ∧ (Status t = 200 ∧ ReadyConnections t > 0 ->
       Healthy r = true
       ∧ Message r = "Tunnel healthy with " +:+ pretty (ReadyConnections t)
                     +:+ " ready connections")
    ∧ (¬ (Status t = 200 ∧ ReadyConnections t > 0) ->
       Healthy r = false
       ∧ Message r = "Tunnel unhealthy: status=" +:+ pretty (Status t)
                     +:+ ", readyConnections=" +:+ pretty (ReadyConnections t))
    ∧ Details r !! "status" = Some (VInt (Status t))
    ∧ Details r !! "readyConnections" = Some (VInt (ReadyConnections t))
    ∧ Details r !! "connectorId" = Some (VString (ConnectorID t))
    ∧ dom (Details r) = {[ "status"; "readyConnections"; "connectorId" ]}.
Proof.
  intros Hreq Hdo Hcode Hdec.
  simpl. unfold cf_Scrape. rewrite Hreq, Hdo.
  destruct (decide (StatusCode resp ≠ 200)) as [Hne|_]; [congruence|].
  rewrite Hdec. eexists. split; [reflexivity|]. simpl.
  split; [|split; [|split; [|split; [|split; [|split]]]]].
  - rewrite andb_true_iff, !bool_decide_eq_true. done.
  - intros [Hs Hr].
    rewrite (bool_decide_eq_true_2 _ Hs), (bool_decide_eq_true_2 _ Hr). done.
  - intros Hn.
    assert (Hf : bool_decide (Status t = 200)
                 && bool_decide (ReadyConnections t > 0) = false).
    { apply not_true_is_false. rewrite andb_true_iff, !bool_decide_eq_true. done. }
    rewrite Hf. done.
  - by simplify_map_eq.
  - by simplify_map_eq.
  - by simplify_map_eq.
  - rewrite !dom_insert_L, dom_singleton_L. set_solver.
Qed.

(** C2. A transport error, a status other than 200 and a body that does
    not decode each give a result (not an error) that is unhealthy and
    carries the message of its case; [Scrape] returns an error exactly
    when the request cannot be built. *)
Theorem Scrape_failures_are_results (c : CloudflaredTunnelScraper) (cx : ctx) :
  (∀ req e,
     http_NewRequestWithContext cx "GET" (scrapeURL c) = Ok req ->
     client_Do (client c) req = Err e ->
     ∃ r, Scrape c cx = Ok r ∧ Healthy r = false
          ∧ Message r = "Failed to connect to " +:+ scrapeURL c +:+ ": " +:+ e)
  ∧ (∀ req resp,
     http_NewRequestWithContext cx "GET" (scrapeURL c) = Ok req ->
     client_Do (client c) req = Ok resp ->
     StatusCode resp ≠ 200 ->
     ∃ r, Scrape c cx = Ok r ∧ Healthy r = false
          ∧ Message r = "HTTP status " +:+ pretty (StatusCode resp)
                        +:+ " from " +:+ scrapeURL c)
  ∧ (∀ req resp e,
     http_NewRequestWithContext cx "GET" (scrapeURL c) = Ok req ->
     client_Do (client c) req = Ok resp ->
     StatusCode resp = 200 ->
     json_Decode (Body resp) = Err e ->
     ∃ r, Scrape c cx = Ok r ∧ Healthy r = false
          ∧ Message r = "Failed to parse response from " +:+ scrapeURL c
                        +:+ ": " +:+ e)
  ∧ (is_Err (Scrape c cx)
     ↔ is_Err (http_NewRequestWithContext cx "GET" (scrapeURL c))).
Proof.
  simpl. unfold cf_Scrape. repeat split.
  - intros req e -> ->. eexists. done.
  - intros req resp -> -> Hne.
    destruct (decide (StatusCode resp ≠ 200)); [|done]. eexists. done.
  - intros req resp e -> -> Hcode ->.
    destruct (decide (StatusCode resp ≠ 200)); [done|]. eexists. done.
  - destruct (http_NewRequestWithContext cx "GET" (scrapeURL c)) as [req|e];
      [|done].
    destruct (client_Do (client c) req) as [resp|e]; [|done].
    destruct (decide (StatusCode resp ≠ 200)); [done|].
    destruct (json_Decode (Body resp)); done.
  - destruct (http_NewRequestWithContext cx "GET" (scrapeURL c)); done.
Qed.

(** C9. On a response whose status is not 200 the details are the map
    with the single key [status_code], bound to that status. *)
Theorem Scrape_bad_status_details
    (c : CloudflaredTunnelScraper) (cx : ctx) (req : Request) (resp : Response) :
  http_NewRequestWithContext cx "GET" (scrapeURL c) = Ok req ->
  client_Do (client c) req = Ok resp ->
  StatusCode resp ≠ 200 ->
  ∃ r, Scrape c cx = Ok r
       ∧ Details r = {[ "status_code" := VInt (StatusCode resp) ]}
       ∧ Details r !! "error" = None
       ∧ Details r !! "status" = None
       ∧ Details r !! "readyConnections" = None
       ∧ Details r !! "connectorId" = None.
Proof.
  intros Hreq Hdo Hne. simpl. unfold cf_Scrape. rewrite Hreq, Hdo.
  destruct (decide (StatusCode resp ≠ 200)); [|done].
  eexists. split; [reflexivity|]. simpl. by simplify_map_eq.
Qed.

(** C4. A scraper built with an interval that is zero or negative has
    interval 30, one built with a positive interval has that interval,
    and so the interval of a scraper that was built is positive. *)
Theorem interval_defaulted (scrapeURL pingURL : string) (n : Z) :
  let probe := NewCloudflaredTunnelScraper scrapeURL pingURL n in
  (n <= 0 -> GetScrapeInterval probe = 30)
  ∧ (n > 0 -> GetScrapeInterval probe = n)
  ∧ GetScrapeInterval probe > 0.
Proof.
  simpl. unfold cf_GetScrapeInterval, NewCloudflaredTunnelScraper. simpl.
  destruct (decide (n <= 0)); lia.
Qed.

(** C3. The factory builds a scraper for the kind
    [cloudflared-tunnel-connector], whatever the two URLs are, and for
    any other kind returns an error whose text contains that kind. *)
Theorem CreateScraper_by_kind (f : Factory) (spec : config.HealthcheckScraper) :
  (config.Type_ spec = "cloudflared-tunnel-connector" ->
   ∃ s, CreateScraper f spec = Ok s
        ∧ I_Type s = "cloudflared-tunnel-connector")
  ∧ (config.Type_ spec ≠ "cloudflared-tunnel-connector" ->
     ∃ e, CreateScraper f spec = Err e
          ∧ Contains e (config.Type_ spec) = true).
Proof.
  unfold CreateScraper. split; intros Hk.
  - destruct (decide _); [|done]. eexists. done.
  - destruct (decide _); [done|]. eexists. split; [reflexivity|].
    apply Contains_suffix.
Qed.

(** The same through the factory: the interval of a scraper built from an
    entry of the configuration. *)
Lemma CreateScraper_interval (f : Factory) (spec : config.HealthcheckScraper)
    (s : ScraperI) :
  CreateScraper f spec = Ok s ->
  (config.ScrapeIntervalSeconds spec <= 0 -> I_GetScrapeInterval s = 30)
  ∧ (config.ScrapeIntervalSeconds spec > 0 ->
     I_GetScrapeInterval s = config.ScrapeIntervalSeconds spec)
  ∧ I_GetScrapeInterval s > 0.
Proof.
  unfold CreateScraper. destruct (decide _); [|done]. intros [= <-].
  unfold I_GetScrapeInterval. simpl.
  unfold cf_GetScrapeInterval, NewCloudflaredTunnelScraper. simpl.
  destruct (decide (config.ScrapeIntervalSeconds spec <= 0)); lia.
Qed.

End ScrapeFacts.

Section ScrapeOnTestServers.

Import scraper testdata.

Lemma Scrape_decoded_response_witness :
  ∃ r, Scrape (NewCloudflaredTunnelScraper "http://healthy.test/ready" "" 30) deadline
       = Ok r
       ∧ Healthy r = true
       ∧ Message r = "Tunnel healthy with 4 ready connections"
       ∧ Details r !! "connectorId" = Some (VString "test-id").
Proof.
  destruct (Scrape_decoded_response
              (NewCloudflaredTunnelScraper "http://healthy.test/ready" "" 30) deadline
              "http://healthy.test/ready"
              {| StatusCode := 200; Body := healthy_body |}
              {| Status := 200; ReadyConnections := 4; ConnectorID := "test-id" |}
              eq_refl eq_refl eq_refl eq_refl)
    as (r & Hr & _ & Hh & _ & _ & _ & Hid & _).
  exists r. destruct Hh as [Hh Hm]; [simpl; lia|].
  repeat split; assumption.
Defined.

Lemma Scrape_failures_are_results_witness :
  (∃ r, Scrape (NewCloudflaredTunnelScraper "http://nowhere.test/ready" "" 30) deadline
        = Ok r
        ∧ Healthy r = false
        ∧ Message r = "Failed to connect to http://nowhere.test/ready: "
                      +:+ "dial tcp: connect: connection refused")
  ∧ (∃ r, Scrape (NewCloudflaredTunnelScraper "http://error.test/ready" "" 30) deadline
          = Ok r
          ∧ Healthy r = false
          ∧ Message r = "HTTP status 500 from http://error.test/ready")
  ∧ (∃ r, Scrape (NewCloudflaredTunnelScraper "http://garbage.test/ready" "" 30) deadline
          = Ok r
          ∧ Healthy r = false
          ∧ Message r = "Failed to parse response from http://garbage.test/ready: "
                        +:+ "invalid character 'i' looking for beginning of value")
  ∧ is_Err (Scrape (NewCloudflaredTunnelScraper ":" "" 30) deadline).
Proof.
  split; [|split; [|split]].
  - exact (proj1 (Scrape_failures_are_results
                    (NewCloudflaredTunnelScraper "http://nowhere.test/ready" "" 30) deadline)
             "http://nowhere.test/ready" _ eq_refl eq_refl).
  - refine (proj1 (proj2 (Scrape_failures_are_results
                    (NewCloudflaredTunnelScraper "http://error.test/ready" "" 30) deadline))
             "http://error.test/ready" {| StatusCode := 500; Body := "" |}
             eq_refl eq_refl _).
    simpl. lia.
  - exact (proj1 (proj2 (proj2 (Scrape_failures_are_results
                    (NewCloudflaredTunnelScraper "http://garbage.test/ready" "" 30) deadline)))
             "http://garbage.test/ready"
             {| StatusCode := 200; Body := "invalid json" |} _
             eq_refl eq_refl eq_refl eq_refl).
  - apply (proj2 (proj2 (proj2 (proj2 (Scrape_failures_are_results
                    (NewCloudflaredTunnelScraper ":" "" 30) deadline))))).
    exact I.
Defined.

Lemma Scrape_bad_status_details_witness :
  ∃ r, Scrape (NewCloudflaredTunnelScraper "http://error.test/ready" "" 30) deadline
       = Ok r
       ∧ Details r = {[ "status_code" := VInt 500 ]}.
Proof.
  destruct (Scrape_bad_status_details
              (NewCloudflaredTunnelScraper "http://error.test/ready" "" 30) deadline
              "http://error.test/ready" {| StatusCode := 500; Body := "" |}
              eq_refl eq_refl ltac:(simpl; lia))
    as (r & Hr & Hd & _).
  exists r. split; assumption.
Defined.

Lemma interval_defaulted_witness :
  GetScrapeInterval (NewCloudflaredTunnelScraper "http://a" "http://b" (-10)) = 30
  ∧ GetScrapeInterval (NewCloudflaredTunnelScraper "http://a" "http://b" 0) = 30
  ∧ GetScrapeInterval (NewCloudflaredTunnelScraper "http://a" "http://b" 120) = 120.
Proof.
  split; [|split].
  - apply (proj1 (interval_defaulted "http://a" "http://b" (-10))). lia.
  - apply (proj1 (interval_defaulted "http://a" "http://b" 0)). lia.
  - apply (proj1 (proj2 (interval_defaulted "http://a" "http://b" 120))). lia.
Defined.

Lemma CreateScraper_by_kind_witness :
  (∃ s, CreateScraper NewFactory (tunnel 120) = Ok s
        ∧ I_Type s = "cloudflared-tunnel-connector")
  ∧ (∃ e, CreateScraper NewFactory unknown = Err e
          ∧ Contains e "unknown-scraper-type" = true).
Proof.
  split.
  - apply (proj1 (CreateScraper_by_kind NewFactory (tunnel 120))). reflexivity.
  - apply (proj2 (CreateScraper_by_kind NewFactory unknown)). discriminate.
Defined.

(** The cases of the tests of the scraper, evaluated. *)
Example Scrape_zero_connections :
  ∃ r, Scrape (NewCloudflaredTunnelScraper "http://zero.test/ready" "" 30) deadline = Ok r
       ∧ Healthy r = false
       ∧ Message r = "Tunnel unhealthy: status=200, readyConnections=0".
Proof. eexists. split; [reflexivity|]. split; reflexivity. Qed.

Example CreateScraper_unknown_message :
  CreateScraper NewFactory unknown
  = Err "unknown scraper type: unknown-scraper-type".
Proof. reflexivity. Qed.

End ScrapeOnTestServers.

(** ** Initialize *)

Section InitializeFacts.

Import scraper healthcheck.

Context `{Net}.

Lemma set_scrapers_same (m : Manager) : set_scrapers m (scrapers m ++ []) = m.
Proof. destruct m. unfold set_scrapers. simpl. by rewrite app_nil_r. Qed.

Lemma CreateScraper_known (f : Factory) (c : config.HealthcheckScraper) :
  known_kind c -> CreateScraper f c = Ok (probe_of c).
Proof. intros Hk. unfold CreateScraper. destruct (decide _); done. Qed.

Lemma CreateScraper_unknown (f : Factory) (c : config.HealthcheckScraper) :
  ¬ known_kind c ->
  CreateScraper f c = Err ("unknown scraper type: " +:+ config.Type_ c).
Proof. intros Hk. unfold CreateScraper. destruct (decide _); done. Qed.

Lemma Initialize_range_known (cfgs : list config.HealthcheckScraper) :
  ∀ m, Forall known_kind cfgs ->
  Initialize_range m cfgs
  = (set_scrapers m (scrapers m ++ (probe_of <$> cfgs)), None).
Proof.
  induction cfgs as [|c cfgs IH]; intros m Hall; simpl.
  - by rewrite set_scrapers_same.
  - apply Forall_cons in Hall as [Hc Hall].
    rewrite (CreateScraper_known _ _ Hc), (IH _ Hall).
    unfold set_scrapers. simpl. by rewrite <- app_assoc.
Qed.

Lemma Initialize_range_unknown (pre : list config.HealthcheckScraper) :
  ∀ m bad post, Forall known_kind pre -> ¬ known_kind bad ->
  Initialize_range m (pre ++ bad :: post)
  = (set_scrapers m (scrapers m ++ (probe_of <$> pre)),
     Some ("failed to create scraper " +:+ config.Type_ bad +:+ ": "
           +:+ "unknown scraper type: " +:+ config.Type_ bad)).
Proof.
  induction pre as [|c pre IH]; intros m bad post Hall Hbad; simpl.
  - by rewrite (CreateScraper_unknown _ _ Hbad), set_scrapers_same.
  - apply Forall_cons in Hall as [Hc Hall].
    rewrite (CreateScraper_known _ _ Hc), (IH _ _ _ Hall Hbad).
    unfold set_scrapers. simpl. by rewrite <- app_assoc.
Qed.

(** C5, as the code has it. When every entry is of the known kind,
    [Initialize] appends one scraper per entry, in order, and returns no
    error. Otherwise it returns the error of the first entry of unknown
    kind, wrapped, and the manager is left holding the scrapers built for
    the entries before that one: nothing is rolled back. *)
Theorem Initialize_stops_at_first_error (m : Manager) :
  (Forall known_kind (config.Scrapers (config m)) ->
   Initialize m
   = (set_scrapers m (scrapers m ++ (probe_of <$> config.Scrapers (config m))),
      None))
  ∧ (∀ pre bad post,
       config.Scrapers (config m) = pre ++ bad :: post ->
       Forall known_kind pre -> ¬ known_kind bad ->
       Initialize m
       = (set_scrapers m (scrapers m ++ (probe_of <$> pre)),
          Some ("failed to create scraper " +:+ config.Type_ bad +:+ ": "
                +:+ "unknown scraper type: " +:+ config.Type_ bad))).
Proof.
  unfold Initialize. split.
  - apply Initialize_range_known.
  - intros pre bad post -> Hpre Hbad. by apply Initialize_range_unknown.
Qed.

End InitializeFacts.

Section InitializeOnTestData.

Import scraper healthcheck testdata.

Lemma Initialize_stops_at_first_error_witness :
  Initialize (NewManager {| config.Scrapers := [tunnel 120; tunnel 0] |})
  = (set_scrapers (NewManager {| config.Scrapers := [tunnel 120; tunnel 0] |})
       [probe_of (tunnel 120); probe_of (tunnel 0)], None)
  ∧ Initialize (NewManager {| config.Scrapers := [tunnel 120; unknown; tunnel 0] |})
    = (set_scrapers
         (NewManager {| config.Scrapers := [tunnel 120; unknown; tunnel 0] |})
         [probe_of (tunnel 120)],
       Some ("failed to create scraper unknown-scraper-type: "
             +:+ "unknown scraper type: unknown-scraper-type")).
Proof.
  split.
  - apply (proj1 (Initialize_stops_at_first_error
                    (NewManager {| config.Scrapers := [tunnel 120; tunnel 0] |}))).
    repeat constructor.
  - apply (proj2 (Initialize_stops_at_first_error
                    (NewManager
                       {| config.Scrapers := [tunnel 120; unknown; tunnel 0] |}))
             [tunnel 120] unknown [tunnel 0] eq_refl).
    + repeat constructor.
    + discriminate.
Defined.

(** C5, as the specification words it, fails. It asks that a failed
    [Initialize] leave the manager with the scrapers it held before the
    call; with a known entry followed by an unknown one, [Initialize]
    returns the error and the manager holds the scraper of the first
    entry. *)
Lemma Initialize_commits_partial_list :
  ¬ (∀ m' e,
       Initialize (NewManager {| config.Scrapers := [tunnel 120; unknown] |})
       = (m', Some e) ->
       scrapers m'
       = scrapers (NewManager {| config.Scrapers := [tunnel 120; unknown] |})).
Proof.
  intros Hall.
  specialize (Hall _ _ eq_refl). discriminate Hall.
Qed.

Example Initialize_partial_list :
  ∃ m' e,
    Initialize (NewManager {| config.Scrapers := [tunnel 120; unknown] |})
    = (m', Some e)
    ∧ scrapers m' = [probe_of (tunnel 120)]
    ∧ e = "failed to create scraper unknown-scraper-type: "
          +:+ "unknown scraper type: unknown-scraper-type".
Proof. eexists _, _. split; [reflexivity|]. split; reflexivity. Qed.

End InitializeOnTestData.

(** ** Loading the configuration *)

Section NewConfigFacts.

Import scraper healthcheck.

Context `{Net}.

Variable json_Unmarshal : string -> result (list config.HealthcheckScraper).


(** C8. A value of [HEALTHCHECK_SCRAPERS] that is there and does not
    decode makes [NewConfig] return an error and no configuration, and
    [main] ends with a fatal error; a value that is absent (the variable
    unset or empty) or decodes to the empty list gives a configuration
    with no scrapers, and [main] returns without starting anything. *)
Theorem NewConfig_malformed_or_empty (env : gmap string string) :
  let input := config.Getenv env "HEALTHCHECK_SCRAPERS" in
  (∀ e, input ≠ "" -> json_Unmarshal input = Err e ->
     config.NewConfig json_Unmarshal env = Err ("failed to parse HEALTHCHECK_SCRAPERS JSON: " +:+ e)
     ∧ cmd.main json_Unmarshal env = cmd.Fatal "Failed to load configuration"
                    ("failed to parse HEALTHCHECK_SCRAPERS JSON: " +:+ e))
  ∧ (input = "" ∨ json_Unmarshal input = Ok [] ->
     config.NewConfig json_Unmarshal env = Ok {| config.Scrapers := [] |}
     ∧ cmd.main json_Unmarshal env = cmd.Return).
Proof.
  simpl. unfold cmd.main, config.NewConfig. split.
  - intros e Hne He. destruct (decide _); [|done]. by rewrite He.
  - intros [He|He].
    + destruct (decide _); done.
    + destruct (decide _); [|done]. by rewrite He.
Qed.

(** C10. [NewConfig] returns an error exactly when the variable is set to
    a string that is not empty and does not decode; with the variable set
    to the empty string it does what it does with the variable unset, and
    returns a configuration with no scrapers, whatever the decoder would
    say of the empty string. *)
Theorem NewConfig_error_iff (env : gmap string string) :
  (is_Err (config.NewConfig json_Unmarshal env)
   ↔ ∃ s, env !! "HEALTHCHECK_SCRAPERS" = Some s ∧ s ≠ ""
          ∧ is_Err (json_Unmarshal s))
  ∧ config.NewConfig json_Unmarshal (<["HEALTHCHECK_SCRAPERS" := ""]> env)
    = config.NewConfig json_Unmarshal (delete "HEALTHCHECK_SCRAPERS" env)
  ∧ config.NewConfig json_Unmarshal (<["HEALTHCHECK_SCRAPERS" := ""]> env)
    = Ok {| config.Scrapers := [] |}.
Proof.
  unfold config.NewConfig, config.Getenv. split; [|split].
  - destruct (env !! "HEALTHCHECK_SCRAPERS") as [s|] eqn:Hs; simpl.
    + destruct (decide (s ≠ "")) as [Hne|He].
      * destruct (json_Unmarshal s) eqn:Hu; simpl.
        -- split; [done|]. intros (s' & [= <-] & _ & Hbad).
           by rewrite Hu in Hbad.
        -- split; [|done]. intros _. exists s. by rewrite Hu.
      * simpl. split; [done|]. intros (s' & [= <-] & Hne & _). done.
    + split; [done|]. intros (s' & [=] & _).
  - by rewrite lookup_insert_eq, lookup_delete_eq.
  - by rewrite lookup_insert_eq.
Qed.

End NewConfigFacts.

Section NewConfigOnTestData.

Import scraper healthcheck testdata.

Lemma NewConfig_malformed_or_empty_witness :
  config.NewConfig Unmarshal {[ "HEALTHCHECK_SCRAPERS" := "invalid json" ]}
  = Err ("failed to parse HEALTHCHECK_SCRAPERS JSON: "
         +:+ "invalid character 'i' looking for beginning of value")
  ∧ config.NewConfig Unmarshal {[ "HEALTHCHECK_SCRAPERS" := "[]" ]}
    = Ok {| config.Scrapers := [] |}
  ∧ cmd.main Unmarshal ∅ = cmd.Return.
Proof.
  split; [|split].
  - apply (proj1 (NewConfig_malformed_or_empty Unmarshal
                    {[ "HEALTHCHECK_SCRAPERS" := "invalid json" ]})).
    + vm_compute. discriminate.
    + reflexivity.
  - apply (proj2 (NewConfig_malformed_or_empty Unmarshal
                    {[ "HEALTHCHECK_SCRAPERS" := "[]" ]})).
    right. reflexivity.
  - apply (proj2 (NewConfig_malformed_or_empty Unmarshal ∅)).
    left. reflexivity.
Defined.

(** The empty string does not decode, and is not handed to the decoder. *)
Example NewConfig_empty_string :
  is_Err (Unmarshal "")
  ∧ config.NewConfig Unmarshal {[ "HEALTHCHECK_SCRAPERS" := "" ]}
    = Ok {| config.Scrapers := [] |}.
Proof. split; [exact I | reflexivity]. Qed.

End NewConfigOnTestData.

(** ** The goroutines of the manager *)

Section GoroutineFacts.

Import scraper healthcheck.

Context `{Net} `{Runtime}.

Variable m : Manager.

Lemma int64_small (z : Z) : 0 <= z < 2 ^ 63 -> int64 z = z.
Proof.
  intros Hz. unfold int64. rewrite Z.mod_small; lia.
Qed.

Lemma tickerInterval_positive (s : ScraperI) : 0 < tickerInterval s.
Proof. unfold tickerInterval. case_decide; lia. Qed.

Lemma tickerDuration_small (s : ScraperI) :
  tickerInterval s <= 9223372036 ->
  tickerDuration s = tickerInterval s * Second.
Proof.
  intros Hs. pose proof (tickerInterval_positive s).
  unfold tickerDuration, Second. apply int64_small. lia.
Qed.

Lemma loop_rest_lookup (j : nat) (s : ScraperI) :
  scrapers m !! j = Some s ->
  loop_rest m j
  = NewTicker j (tickerDuration s)
    :: Go [Call_runSingleHealthcheck s]
    :: Go (tickerLoop j s)
    :: loop_rest m (S j).
Proof.
  intros Hs. unfold loop_rest. rewrite (drop_S _ _ _ Hs). reflexivity.
Qed.

Lemma loop_rest_end :
  loop_rest m (length (scrapers m))
  = [RecvStop; Return; RangeTickers; WgDone].
Proof. unfold loop_rest. rewrite drop_all. reflexivity. Qed.

Lemma deferred_range (ss : list ScraperI) :
  ∀ k, deferred (healthcheckLoop_range k ss
                 ++ [RecvStop; Return; RangeTickers; WgDone])
       = [RangeTickers; WgDone].
Proof. induction ss as [|s ss IH]; intros k; simpl; [done|apply IH]. Qed.

Lemma deferred_loop_rest (j : nat) :
  deferred (loop_rest m j) = [RangeTickers; WgDone].
Proof. apply deferred_range. Qed.

Lemma count_ok_lt (pk : bool) (c : nat) :
  count_ok m pk c -> (c ≤ length (scrapers m))%nat.
Proof.
  destruct pk; simpl.
  - intros (s & Hs & _). apply lookup_lt_Some in Hs. lia.
  - lia.
Qed.

Lemma count_ok_bad (c : nat) : count_ok m true c -> ¬ durations_positive m.
Proof.
  intros (s & Hs & Hbad) Hall.
  pose proof (proj1 (Forall_lookup _ _) Hall _ _ Hs) as Hpos. simpl in Hpos. lia.
Qed.

Lemma dom_below (tks : gmap nat Ticker) (c : nat) :
  (∀ t, is_Some (tks !! t) ↔ (t < c)%nat) ->
  length (elements (dom tks)) = c.
Proof.
  intros Hdom.
  assert (Heq : dom tks = set_seq 0 c).
  { apply set_eq. intros t. rewrite elem_of_dom, Hdom, elem_of_set_seq. lia. }
  rewrite Heq. change (size (set_seq (C := gset nat) 0 c) = c).
  apply size_set_seq.
Qed.

Lemma boot_inv : fresh m -> InvAt m 0 (Ranging 0 0) [] (boot m).
Proof.
  intros [Hstop Hwg]. split; simpl; try done; try lia.
  - intros t. rewrite lookup_empty. split; [by intros [? ?]|lia].
  - intros u Hu. by inversion Hu.
Qed.

(** Goroutine 0: [Start], then [Stop]. *)
Lemma main_step (pm : nat) (ph : phase) (sp : list (list stmt)) (st : State) :
  InvAt m pm ph sp st ->
  (pm < 3)%nat ∨ (pm = 3%nat ∧ is_Finished ph = true) ->
  ∃ st', exec (Run 0) st = Some st' ∧ InvAt m (S pm) ph sp st'.
Proof.
  intros [Hp Hpm Hsc Hg He Hwg Hph Hj Hc Hcnt Hw Hal Ht Htk Hpg] Hen.
  unfold exec. rewrite Hg.
  destruct pm as [|[|[|[|pm]]]]; try lia; simpl in *.
  - destruct (He ltac:(lia)) as [-> ->].
    rewrite Hwg. simpl. eexists. split; [reflexivity|].
    split; simpl; try done; try lia.
    by rewrite Hg.
  - destruct (He ltac:(lia)) as [-> ->].
    eexists. split; [reflexivity|].
    split; simpl; try done; try lia.
    by rewrite Hg.
  - rewrite Hsc. simpl. eexists. split; [reflexivity|].
    split; simpl; try done; try lia.
    by rewrite Hg.
  - destruct Hen as [?|[_ Hfin]]; [lia|].
    rewrite Hwg, Hfin. simpl. eexists. split; [reflexivity|].
    split; simpl; try done; try lia.
    by rewrite Hg.
Qed.

Lemma main_blocked (pm : nat) (ph : phase) (sp : list (list stmt)) (st : State) :
  InvAt m pm ph sp st ->
  ¬ ((pm < 3)%nat ∨ (pm = 3%nat ∧ is_Finished ph = true)) ->
  exec (Run 0) st = None.
Proof.
  intros [Hp Hpm Hsc Hg He Hwg Hph Hj Hc Hcnt Hw Hal Ht Htk Hpg] Hen.
  unfold exec. rewrite Hg.
  destruct pm as [|[|[|[|pm]]]]; try (exfalso; apply Hen; lia); simpl in *.
  - rewrite Hwg. destruct (is_Finished ph) eqn:Hfin; [|done].
    exfalso. apply Hen. by right.
  - assert (pm = 0%nat) as -> by lia. done.
Qed.

Lemma main_no_tick (pm : nat) (ph : phase) (sp : list (list stmt)) (st : State) :
  InvAt m pm ph sp st -> exec (RunTick 0) st = None.
Proof.
  intros [Hp Hpm Hsc Hg He Hwg Hph Hj Hc Hcnt Hw Hal Ht Htk Hpg].
  unfold exec. rewrite Hg.
  destruct pm as [|[|[|[|pm]]]]; try done.
  assert (pm = 0%nat) as -> by lia. done.
Qed.

Ltac close_inv :=
  simpl; try done; try lia; try (intros; lia);
  try (match goal with Hg : goroutines _ = _ |- _ => rewrite Hg end;
       match goal with |- context [decide (?a < 2)%nat] =>
         destruct (decide (a < 2)%nat); [lia|] end;
       try (match goal with Hs : scrapers _ !! _ = Some _ |- _ =>
              rewrite ?(loop_rest_lookup _ _ Hs) end);
       simpl; done).

(** Goroutine 1: [healthcheckLoop]. *)
Lemma loop_step (pm : nat) (ph : phase) (sp : list (list stmt)) (st : State) :
  InvAt m pm ph sp st ->
  (2 ≤ pm)%nat ->
  (ph = Ranging (length (scrapers m)) 0 -> (3 ≤ pm)%nat) ->
  returned ph = false ->
  ∃ st', exec (Run 1) st = Some st'
    ∧ ((∃ sp', InvAt m pm (next_phase m st ph) sp' st')
       ∨ (∃ c, ph = Finished true c ∧ Dead m st')).
Proof.
  intros [Hp Hpm Hsc Hg He Hwg Hph Hj Hc Hcnt Hw Hal Ht Htk Hpg] H2 Hrecv Hne.
  assert (Hpm3 : (pm ≤ 3)%nat ∨ is_Finished ph = true).
  { destruct (decide (pm = 4%nat)) as [Hpm4|?]; [right; by apply Hj|left; lia]. }
  unfold exec. rewrite Hg.
  destruct (decide (pm < 2)%nat) as [?|_]; [lia|].
  assert (Hwg1 : is_Finished ph = false -> wg (mgr st) = 1).
  { intros Hnf. rewrite Hwg. destruct pm; [lia|]. simpl. by rewrite Hnf. }
  simpl. destruct ph as [j r| |pk c|pk c rest|pk c]; simpl in *.
  - destruct Hpm3 as [Hpm3|?]; [|done].
    destruct Hph as [[Hjn Hr]|[-> ->]].
    + destruct (lookup_lt_is_Some_2 _ _ Hjn) as [s Hs].
      rewrite (loop_rest_lookup _ _ Hs). rewrite Hs.
      destruct r as [|[|[|r]]]; [| | |lia]; simpl.
      * destruct (decide (tickerDuration s <= 0)) as [Hbad|Hgood].
        -- eexists. split; [reflexivity|]. left. exists sp.
           split; close_inv.
           ++ rewrite Hg. destruct (decide (pm < 2)%nat); [lia|].
              simpl. by rewrite deferred_loop_rest.
           ++ by exists s.
           ++ intros t. rewrite Ht. lia.
        -- eexists. split; [reflexivity|]. left. exists sp.
           split; close_inv.
           ++ intros t. rewrite lookup_insert_is_Some', Ht. lia.
           ++ intros t tk Htt. simpl in Htt.
              destruct (decide (j = t)) as [->|Hjt].
              ** rewrite lookup_insert_eq in Htt. simplify_eq.
                 exists s. simpl. repeat split; [done|lia].
              ** rewrite lookup_insert_ne in Htt by done. by apply Htk.
      * eexists. split; [reflexivity|]. left.
        exists (sp ++ [[Call_runSingleHealthcheck s]]).
        split; close_inv.
        -- rewrite length_app. simpl. lia.
        -- intros i k Hik. apply lookup_app_Some in Hik as [Hik|[Hlen Hik]].
           ++ by apply Hw.
           ++ apply list_lookup_singleton_Some in Hik as [Hi <-].
              exists j, s. split; [done|]. left. split; [lia|]. by left.
        -- intros Hopen j0 Hj0. apply lookup_app_Some in Hj0 as [Hj0|[Hlen Hj0]].
           ++ by apply (Hal Hopen j0).
           ++ by apply list_lookup_singleton_Some in Hj0 as [_ ?].
      * eexists. split; [reflexivity|]. left.
        exists (sp ++ [tickerLoop j s]).
        split; close_inv.
        -- rewrite length_app. simpl. lia.
        -- intros i k Hik. apply lookup_app_Some in Hik as [Hik|[Hlen Hik]].
           ++ by apply Hw.
           ++ apply list_lookup_singleton_Some in Hik as [Hi <-].
              exists j, s. split; [done|]. right. split; [lia|]. by left.
        -- intros Hopen j0 Hj0. apply lookup_app_Some in Hj0 as [Hj0|[Hlen Hj0]].
           ++ by apply (Hal Hopen j0).
           ++ by apply list_lookup_singleton_Some in Hj0 as [_ ?].
        -- intros t. rewrite Ht. lia.
    + specialize (Hrecv eq_refl).
      rewrite loop_rest_end.
      rewrite (lookup_ge_None_2 (scrapers m) (length (scrapers m))) by lia.
      simpl. rewrite Hsc, bool_decide_eq_true_2 by done.
      eexists. split; [reflexivity|]. left. exists sp.
      split; close_inv.
      intros t. rewrite Ht. lia.
  - destruct Hpm3 as [Hpm3|?]; [|done].
    eexists. split; [reflexivity|]. left. exists sp.
    split; close_inv.
  - destruct Hpm3 as [Hpm3|?]; [|done].
    eexists. split; [reflexivity|]. left. exists sp.
    split; close_inv.
    + split; [done|]. split; [apply NoDup_elements|].
      intros t Hin. apply elem_of_elements, elem_of_dom in Hin. by apply Ht.
    + intros t tk Htt. destruct (Htk _ _ Htt) as (s & Hs & Hper & Hpos & Hrun).
      exists s. repeat split; try done. rewrite Hrun. symmetry.
      apply bool_decide_eq_true_2. apply elem_of_elements, elem_of_dom. eauto.
  - destruct Hpm3 as [Hpm3|?]; [|done].
    destruct Hph as (Hcok & Hnd & Hlt).
    destruct rest as [|t rest]; simpl.
    + rewrite (Hwg1 eq_refl). simpl.
      eexists. split; [reflexivity|]. left. exists sp.
      split; close_inv.
      destruct pm; [lia|done].
    + destruct (proj2 (Ht t) (Hlt t ltac:(left))) as [tk0 Htk0]. rewrite Htk0.
      apply NoDup_cons in Hnd as [Hnotin Hnd].
      eexists. split; [reflexivity|]. left. exists sp.
      split; close_inv.
      * split; [done|]. split; [done|]. intros t' Hin. apply Hlt. by right.
      * intros t'. rewrite lookup_insert_is_Some'. rewrite <- Ht.
        split; [|by right]. intros [<-|?]; [|done]. by rewrite Htk0.
      * intros t' tk' Htt. simpl in Htt.
        destruct (decide (t = t')) as [->|Hne'].
        -- rewrite lookup_insert_eq in Htt. simplify_eq.
           destruct (Htk _ _ Htk0) as (s & Hs & Hper & Hpos & Hrun).
           exists s. simpl. repeat split; try done.
           symmetry. by apply bool_decide_eq_false_2.
        -- rewrite lookup_insert_ne in Htt by done.
           destruct (Htk _ _ Htt) as (s & Hs & Hper & Hpos & Hrun).
           exists s. repeat split; try done. rewrite Hrun.
           apply bool_decide_ext. rewrite elem_of_cons.
           split; [intros [?|?]; [congruence|done]|by right].
  - destruct pk; [|done]. simpl.
    eexists. split; [reflexivity|]. right. exists c. split; [done|].
    repeat split; simpl; try done.
    + rewrite Hwg. destruct pm; [lia|done].
    + by eapply count_ok_bad.
Qed.

Lemma steps_left_next (ph : phase) (st : State) :
  phase_ok m ph ->
  (∀ t, is_Some (tickers st !! t) ↔ (t < ticker_count m ph)%nat) ->
  returned ph = false -> pk_of ph = false ->
  (steps_left m (next_phase m st ph) < steps_left m ph)%nat.
Proof.
  intros Hok Ht Hne Hpk.
  destruct ph as [j r| |pk c|pk c rest|pk c]; simpl in *.
  - destruct Hok as [[Hjn Hr]|[-> ->]].
    + destruct (lookup_lt_is_Some_2 _ _ Hjn) as [s Hs]. rewrite Hs.
      destruct r as [|[|r]]; [case_decide| |]; simpl; lia.
    + rewrite (lookup_ge_None_2 (scrapers m) (length (scrapers m))) by lia.
      simpl. lia.
  - pose proof (count_ok_lt false _ eq_refl). lia.
  - rewrite (dom_below _ _ Ht). lia.
  - destruct rest; simpl; lia.
  - by simplify_eq.
Qed.

(** The first statement of [healthcheckLoop] in each phase. *)
Lemma loop_head (ph : phase) (c : stmt) (k : list stmt) :
  phase_ok m ph -> loop_cont m ph = c :: k ->
  match c with
  | NewTicker t _ => ph = Ranging t 0
  | RecvStop => ph = Ranging (length (scrapers m)) 0
  | Return => ph = Returning
  | RangeTickers | TickerStop _ | WgDone | Crash =>
    pk_of ph = true ∨ past_recv ph
  | Go body => body ≠ []
  | _ => False
  end.
Proof.
  destruct ph as [j r| |pk c0|pk c0 rest|pk c0]; simpl; intros Hok Hl.
  - destruct Hok as [[Hjn Hr]|[-> ->]].
    + destruct (lookup_lt_is_Some_2 _ _ Hjn) as [s Hs].
      rewrite (loop_rest_lookup _ _ Hs) in Hl.
      destruct r as [|[|[|r]]]; [| | |lia]; simpl in Hl; by simplify_eq.
    + rewrite loop_rest_end in Hl. simpl in Hl. by simplify_eq.
  - by simplify_eq.
  - simplify_eq. destruct pk; auto.
  - destruct rest; simpl in Hl; simplify_eq; destruct pk; auto.
  - destruct pk; simpl in Hl; simplify_eq. auto.
Qed.

Lemma loop_lookup (pm : nat) (ph : phase) (sp : list (list stmt)) (st : State) :
  InvAt m pm ph sp st -> (2 ≤ pm)%nat ->
  goroutines st !! 1%nat = Some (loop_cont m ph).
Proof.
  intros Hinv H2. rewrite (inv_goroutines _ _ _ _ _ Hinv).
  destruct (decide (pm < 2)%nat); [lia|done].
Qed.

Lemma loop_absent (pm : nat) (ph : phase) (sp : list (list stmt)) (st : State) :
  InvAt m pm ph sp st -> (pm < 2)%nat ->
  ∀ g, goroutines st !! S g = None.
Proof.
  intros Hinv H2 g. rewrite (inv_goroutines _ _ _ _ _ Hinv).
  destruct (decide (pm < 2)%nat); [done|lia].
Qed.

Lemma loop_blocked (pm : nat) (ph : phase) (sp : list (list stmt)) (st : State) :
  InvAt m pm ph sp st ->
  ¬ ((2 ≤ pm)%nat
     ∧ (ph = Ranging (length (scrapers m)) 0 -> (3 ≤ pm)%nat)
     ∧ returned ph = false) ->
  exec (Run 1) st = None.
Proof.
  intros Hinv Hen. unfold exec.
  destruct (decide (pm < 2)%nat) as [Hlt|Hpm2].
  { by rewrite (loop_absent _ _ _ _ Hinv Hlt). }
  rewrite (loop_lookup _ _ _ _ Hinv) by lia.
  destruct (loop_cont m ph) as [|c k] eqn:Hl; [done|].
  pose proof (loop_head _ _ _ (inv_phase _ _ _ _ _ Hinv) Hl) as Hc.
  destruct (decide (ph = Ranging (length (scrapers m)) 0)) as [->|Hr].
  - simpl in Hl. rewrite loop_rest_end in Hl. simpl in Hl. simplify_eq.
    simpl. rewrite (inv_stopChan _ _ _ _ _ Hinv).
    rewrite bool_decide_eq_false_2; [done|].
    intros H3. apply Hen. split; [lia|]. done.
  - exfalso. apply Hen. split; [lia|]. split; [done|].
    by destruct ph as [| | | |[|]].
Qed.

Lemma loop_no_tick (pm : nat) (ph : phase) (sp : list (list stmt)) (st : State) :
  InvAt m pm ph sp st -> exec (RunTick 1) st = None.
Proof.
  intros Hinv. unfold exec.
  destruct (decide (pm < 2)%nat) as [Hlt|Hpm2].
  { by rewrite (loop_absent _ _ _ _ Hinv Hlt). }
  rewrite (loop_lookup _ _ _ _ Hinv) by lia.
  destruct (loop_cont m ph) as [|c k] eqn:Hl; [done|].
  pose proof (loop_head _ _ _ (inv_phase _ _ _ _ _ Hinv) Hl) as Hc.
  by destruct c.
Qed.

(** The goroutines started by [healthcheckLoop]. *)
Lemma worker_lookup (pm : nat) (ph : phase) (sp : list (list stmt))
    (st : State) (i : nat) :
  InvAt m pm ph sp st -> goroutines st !! S (S i) = sp !! i.
Proof.
  intros Hinv. rewrite (inv_goroutines _ _ _ _ _ Hinv).
  destruct (decide (pm < 2)%nat) as [Hlt|?]; [|done].
  destruct (inv_early _ _ _ _ _ Hinv Hlt) as [_ ->]. done.
Qed.

Lemma runSingleHealthcheck_elem (m0 : Manager) (s : ScraperI) (u : string) :
  u ∈ runSingleHealthcheck m0 s ->
  u = I_GetPingURL s ∧ u ≠ ""
  ∧ ∃ r, I_Scrape s (context_WithTimeout 30) = Ok r ∧ Healthy r = true.
Proof.
  unfold runSingleHealthcheck, pingSuccessURL. intros Hu.
  destruct (I_Scrape s (context_WithTimeout 30)) as [r|e]; [|by inversion Hu].
  destruct (Healthy r) eqn:Hh; [|by inversion Hu].
  destruct (decide (I_GetPingURL s = "")) as [|Hne]; [by inversion Hu|].
  assert (u = I_GetPingURL s) as ->.
  { repeat case_match; try (by inversion Hu);
      by apply list_elem_of_singleton in Hu. }
  eauto.
Qed.

Lemma pinged_ok_check (st : State) (s : ScraperI) :
  pinged_ok m st -> s ∈ scrapers m ->
  pinged_ok m (add_pinged st (runSingleHealthcheck (mgr st) s)).
Proof.
  intros Hpg Hs u Hu. simpl in Hu. apply elem_of_app in Hu as [Hu|Hu].
  - by apply Hpg.
  - destruct (runSingleHealthcheck_elem _ _ _ Hu) as (-> & Hne & r & Hr & Hh).
    by exists s, r.
Qed.

Lemma worker_insert (pm : nat) (ph : phase) (sp : list (list stmt))
    (st st' : State) (i : nat) (k k' : list stmt) :
  InvAt m pm ph sp st ->
  sp !! i = Some k ->
  worker_ok m i k' ->
  (stopChan (mgr st) = false -> ∀ j, i = (2 * j + 1)%nat -> k' ≠ []) ->
  panicked st' = panicked st ->
  mgr st' = mgr st ->
  goroutines st' = <[S (S i) := k']> (goroutines st) ->
  (∀ t, is_Some (tickers st' !! t) ↔ is_Some (tickers st !! t)) ->
  tickers_ok m ph st' ->
  pinged_ok m st' ->
  InvAt m pm ph (<[i := k']> sp) st'.
Proof.
  intros [Hp Hpm Hsc Hg He Hwg Hph Hj Hc Hcnt Hw Hal Ht Htk Hpg]
    Hk Hk' Hal' Hp' Hm Hg' Ht' Htk' Hpg'.
  assert (Hpm2 : ¬ (pm < 2)%nat).
  { intros Hlt. destruct (He Hlt) as [_ ->]. done. }
  split; try done.
  - by rewrite Hp'.
  - by rewrite Hm.
  - rewrite Hg', Hg. destruct (decide (pm < 2)%nat); done.
  - by rewrite Hm.
  - by rewrite length_insert.
  - intros i' k'' Hik. apply list_lookup_insert_Some in Hik as [(-> & <- & _)|[_ Hik]].
    + done.
    + by apply Hw.
  - rewrite Hm. intros Hopen j Hj0.
    apply list_lookup_insert_Some in Hj0 as [(Hi & Hnil & _)|[_ Hj0]].
    + by apply (Hal' Hopen j).
    + by apply (Hal Hopen j).
  - intros t. by rewrite Ht'.
Qed.

Lemma worker_run (pm : nat) (ph : phase) (sp : list (list stmt))
    (st st' : State) (i : nat) :
  InvAt m pm ph sp st ->
  exec (Run (S (S i))) st = Some st' ->
  ∃ c k k', sp !! i = Some (c :: k)
    ∧ (length k' ≤ length k)%nat
    ∧ InvAt m pm ph (<[i := k']> sp) st'.
Proof.
  intros Hinv Hex. pose proof Hinv as Hinv0.
  destruct Hinv as [Hp Hpm Hsc Hg He Hwg Hph Hj Hc Hcnt Hw Hal Ht Htk Hpg].
  unfold exec in Hex. rewrite (worker_lookup _ _ _ _ _ Hinv0) in Hex.
  destruct (sp !! i) as [k|] eqn:Hk; [|done].
  destruct (Hw _ _ Hk) as (j & s & Hs & [[-> Hsh]|[-> Hsh]]).
  - destruct Hsh as [->| ->]; [|done]. simpl in Hex. simplify_eq.
    eexists _, _, []. split; [done|]. split; [done|].
    eapply worker_insert; try done.
    + exists j, s. split; [done|]. left. split; [done|]. by right.
    + intros _ j0 Hj0. lia.
    + apply pinged_ok_check; [done|]. by eapply list_elem_of_lookup_2.
  - destruct Hsh as [->|[->| ->]]; [| |done]; simpl in Hex.
    + destruct (stopChan (mgr st)) eqn:Hopen; [|done]. simplify_eq.
      eexists _, _, []. split; [done|]. split; [done|].
      eapply worker_insert; try done.
      * exists j, s. split; [done|]. right. split; [done|]. by right; right.
      * by rewrite Hopen.
    + simplify_eq.
      eexists _, _, (tickerLoop j s). split; [done|]. split; [done|].
      eapply worker_insert; try done.
      * exists j, s. split; [done|]. right. split; [done|]. by left.
      * apply pinged_ok_check; [done|]. by eapply list_elem_of_lookup_2.
Qed.

Lemma worker_tick (pm : nat) (ph : phase) (sp : list (list stmt))
    (st st' : State) (i : nat) :
  InvAt m pm ph sp st ->
  exec (RunTick (S (S i))) st = Some st' ->
  ∃ j s, scrapers m !! j = Some s
    ∧ i = (2 * j + 1)%nat
    ∧ sp !! i = Some (tickerLoop j s)
    ∧ goroutines st' !! S (S i)
      = Some (Call_runSingleHealthcheck s :: tickerLoop j s)
    ∧ length (goroutines st') = length (goroutines st)
    ∧ InvAt m pm ph (<[i := Call_runSingleHealthcheck s :: tickerLoop j s]> sp) st'.
Proof.
  intros Hinv Hex. pose proof Hinv as Hinv0.
  destruct Hinv as [Hp Hpm Hsc Hg He Hwg Hph Hj Hc Hcnt Hw Hal Ht Htk Hpg].
  unfold exec in Hex. rewrite (worker_lookup _ _ _ _ _ Hinv0) in Hex.
  destruct (sp !! i) as [k|] eqn:Hk; [|done].
  destruct (Hw _ _ Hk) as (j & s & Hs & [[-> Hsh]|[-> Hsh]]).
  - destruct Hsh as [->| ->]; done.
  - destruct Hsh as [->|[->| ->]]; [|done|done]. simpl in Hex.
    destruct (tickers st !! j) as [tk|] eqn:Htk0; [|done].
    destruct (pending tk); [|done]. simplify_eq.
    exists j, s. split; [done|]. split; [done|]. split; [done|].
    assert (Hlt : (S (S (2 * j + 1)) < length (goroutines st))%nat).
    { apply lookup_lt_is_Some. rewrite (worker_lookup _ _ _ _ _ Hinv0). eauto. }
    split; [|split].
    + simpl. by rewrite list_lookup_insert_eq.
    + simpl. by rewrite length_insert.
    + eapply worker_insert; try done.
      * exists j, s. split; [done|]. right. split; [done|]. by right; left.
      * intros t. simpl. rewrite lookup_insert_is_Some'.
        split; [|by right]. intros [<-|?]; [|done]. by rewrite Htk0.
      * intros t tk' Htt. simpl in Htt.
        destruct (decide (j = t)) as [->|Hne].
        -- rewrite lookup_insert_eq in Htt. simplify_eq.
           destruct (Htk _ _ Htk0) as (s0 & Hs0 & Hper & Hpos & Hrun).
           by exists s0.
        -- rewrite lookup_insert_ne in Htt by done. by apply Htk.
Qed.

Lemma fire_inv (pm : nat) (ph : phase) (sp : list (list stmt))
    (st st' : State) (t : nat) :
  InvAt m pm ph sp st -> exec (Fire t) st = Some st' -> InvAt m pm ph sp st'.
Proof.
  intros [Hp Hpm Hsc Hg He Hwg Hph Hj Hc Hcnt Hw Hal Ht Htk Hpg] Hex.
  unfold exec in Hex.
  destruct (tickers st !! t) as [tk|] eqn:Htk0; [|done].
  destruct (running tk) eqn:Hrun0; [|done]. simplify_eq.
  split; try done.
  - intros t'. simpl. rewrite lookup_insert_is_Some', <- Ht.
    split; [|by right]. intros [<-|?]; [|done]. by rewrite Htk0.
  - intros t' tk' Htt. simpl in Htt.
    destruct (decide (t = t')) as [->|Hne].
    + rewrite lookup_insert_eq in Htt. simplify_eq.
      destruct (Htk _ _ Htk0) as (s & Hs & Hper & Hpos & Hrun).
      exists s. simpl. repeat split; try done. by rewrite <- Hrun.
    + rewrite lookup_insert_ne in Htt by done. by apply Htk.
Qed.

Lemma dead_stuck (a : action) (st : State) : Dead m st -> exec a st = None.
Proof.
  intros (Hg & Ht & _). unfold exec. rewrite Hg, Ht.
  destruct a; by rewrite ?lookup_empty.
Qed.

(** Every action keeps the invariant. *)
Lemma exec_inv (a : action) (st st' : State) :
  Inv m st -> exec a st = Some st' -> Inv m st'.
Proof.
  intros [(pm & ph & sp & Hinv)|Hdead] Hex;
    [|by rewrite (dead_stuck _ _ Hdead) in Hex].
  destruct a as [t|g|g].
  - left. exists pm, ph, sp. by eapply fire_inv.
  - destruct g as [|[|i]].
    + destruct (decide ((pm < 3)%nat ∨ (pm = 3%nat ∧ is_Finished ph = true)))
        as [Hen|Hen].
      * destruct (main_step _ _ _ _ Hinv Hen) as (st'' & Hex' & Hinv').
        rewrite Hex in Hex'. simplify_eq. left. by exists (S pm), ph, sp.
      * by rewrite (main_blocked _ _ _ _ Hinv Hen) in Hex.
    + destruct (decide ((2 ≤ pm)%nat
                        ∧ (ph = Ranging (length (scrapers m)) 0 -> (3 ≤ pm)%nat)
                        ∧ returned ph = false))
        as [(H2 & Hr & Hne)|Hen].
      * destruct (loop_step _ _ _ _ Hinv H2 Hr Hne)
          as (st'' & Hex' & [(sp' & Hinv')|(c & _ & Hdead)]);
          rewrite Hex in Hex'; simplify_eq.
        -- left. by eexists pm, _, sp'.
        -- by right.
      * by rewrite (loop_blocked _ _ _ _ Hinv Hen) in Hex.
    + destruct (worker_run _ _ _ _ _ _ Hinv Hex) as (c & k & k' & _ & _ & Hinv').
      left. by exists pm, ph, (<[i := k']> sp).
  - destruct g as [|[|i]].
    + by rewrite (main_no_tick _ _ _ _ Hinv) in Hex.
    + by rewrite (loop_no_tick _ _ _ _ Hinv) in Hex.
    + destruct (worker_tick _ _ _ _ _ _ Hinv Hex) as (j & s & _ & _ & _ & _ & _ & Hinv').
      left. by eexists pm, ph, _.
Qed.

Lemma run_inv (acts : list action) :
  ∀ st st', Inv m st -> run acts st = Some st' -> Inv m st'.
Proof.
  induction acts as [|a acts IH]; intros st st' Hinv Hrun; simpl in Hrun.
  - by simplify_eq.
  - destruct (exec a st) as [st1|] eqn:Hex; [|done].
    eapply IH; [|done]. by eapply exec_inv.
Qed.

Lemma reachable_inv (st : State) : fresh m -> reachable m st -> Inv m st.
Proof.
  intros Hf [acts Hrun]. eapply run_inv; [|done].
  left. exists 0%nat, (Ranging 0 0), []. by apply boot_inv.
Qed.

Lemma run_app (acts1 acts2 : list action) :
  ∀ st st1 st2,
    run acts1 st = Some st1 -> run acts2 st1 = Some st2 ->
    run (acts1 ++ acts2) st = Some st2.
Proof.
  induction acts1 as [|a acts1 IH]; intros st st1 st2 H1 H2; simpl in *.
  - by simplify_eq.
  - destruct (exec a st) as [st0|]; [|done]. by eapply IH.
Qed.

Lemma reachable_step (a : action) (st st' : State) :
  reachable m st -> exec a st = Some st' -> reachable m st'.
Proof.
  intros [acts Hrun] Hex. exists (acts ++ [a]).
  eapply run_app; [done|]. cbn [run]. by rewrite Hex.
Qed.

(** With positive durations [healthcheckLoop] is never left by a panic. *)
Lemma positive_no_panic (pm : nat) (ph : phase) (sp : list (list stmt))
    (st : State) :
  durations_positive m -> InvAt m pm ph sp st -> pk_of ph = false.
Proof.
  intros Hdur Hinv. pose proof (inv_phase _ _ _ _ _ Hinv) as Hph.
  destruct ph as [j r| |[|] c|[|] c rest|[|] c]; simpl in *; try done;
    exfalso; eapply count_ok_bad; try done. by destruct Hph.
Qed.

Lemma positive_alive (st : State) :
  durations_positive m -> Inv m st ->
  ∃ pm ph sp, InvAt m pm ph sp st ∧ pk_of ph = false.
Proof.
  intros Hdur [(pm & ph & sp & Hinv)|(_ & _ & _ & _ & _ & Hbad)]; [|done].
  exists pm, ph, sp. split; [done|]. by eapply positive_no_panic.
Qed.

(** What holds when [Stop] has returned. *)
Lemma returned_inv (pm : nat) (ph : phase) (sp : list (list stmt)) (st : State) :
  InvAt m pm ph sp st -> Stop_returned st ->
  pm = 4%nat ∧ ∃ c, ph = Finished (panicked st) c.
Proof.
  intros Hinv Hret. unfold Stop_returned in Hret.
  rewrite (inv_goroutines _ _ _ _ _ Hinv) in Hret. simpl in Hret.
  pose proof (inv_pm _ _ _ _ _ Hinv).
  assert (pm = 4%nat) as ->
    by (destruct pm as [|[|[|[|[|pm]]]]]; try done; lia).
  split; [done|].
  pose proof (inv_joined _ _ _ _ _ Hinv eq_refl) as Hfin.
  rewrite (inv_panicked _ _ _ _ _ Hinv).
  destruct ph; try done. by eexists.
Qed.

(** X9. What holds when [Stop] has returned: the stop channel is closed,
    the wait group is at zero, and [healthcheckLoop] is through its
    deferred [m.wg.Done()]. It has then returned, unless it panicked: in
    that case the end of the process is all that is left to it. When no
    ticker duration wraps around to a value that is not positive, nothing
    has panicked. *)
Lemma Stop_returned_joined (st : State) :
  fresh m -> reachable m st -> Stop_returned st ->
  stopChan (mgr st) = true
  ∧ wg (mgr st) = 0
  ∧ (panicked st = false -> goroutines st !! 1%nat = Some [])
  ∧ (panicked st = true -> goroutines st !! 1%nat = Some [Crash])
  ∧ (durations_positive m -> panicked st = false).
Proof.
  intros Hf Hr Hret.
  destruct (reachable_inv _ Hf Hr) as [(pm & ph & sp & Hinv)|Hdead].
  - destruct (returned_inv _ _ _ _ Hinv Hret) as (-> & c & ->).
    split; [by rewrite (inv_stopChan _ _ _ _ _ Hinv)|].
    split; [by rewrite (inv_wg _ _ _ _ _ Hinv)|].
    rewrite (loop_lookup _ _ _ _ Hinv) by lia. simpl.
    split; [by intros ->|]. split; [by intros ->|].
    intros Hdur. by apply (positive_no_panic _ _ _ _ Hdur Hinv).
  - destruct Hdead as (Hg & _). unfold Stop_returned in Hret.
    by rewrite Hg in Hret.
Qed.

(** From a state of the invariant, a schedule that makes [Stop] return. *)
Lemma joined_from (n : nat) :
  durations_positive m ->
  ∀ pm ph sp st,
    InvAt m pm ph sp st ->
    (4 - pm + steps_left m ph ≤ n)%nat ->
    ∃ acts st' sp' c,
      run acts st = Some st' ∧ InvAt m 4 (Finished false c) sp' st'.
Proof.
  intros Hdur.
  assert (Hend : ∀ ph sp st, InvAt m 4 ph sp st ->
            ∃ acts st' sp' c,
              run acts st = Some st' ∧ InvAt m 4 (Finished false c) sp' st').
  { intros ph sp st Hinv.
    pose proof (inv_joined _ _ _ _ _ Hinv eq_refl) as Hfin.
    pose proof (positive_no_panic _ _ _ _ Hdur Hinv) as Hpk.
    destruct ph as [| | | |pk c]; try done. simpl in Hpk. subst pk.
    by exists [], st, sp, c. }
  induction n as [|n IH]; intros pm ph sp st Hinv Hn.
  - pose proof (inv_pm _ _ _ _ _ Hinv).
    assert (pm = 4%nat) as -> by lia. by eapply Hend.
  - destruct (decide (pm = 4%nat)) as [->|Hpm4]; [by eapply Hend|].
    pose proof (inv_pm _ _ _ _ _ Hinv).
    destruct (decide ((pm < 3)%nat ∨ (pm = 3%nat ∧ is_Finished ph = true)))
      as [Hen|Hen].
    + destruct (main_step _ _ _ _ Hinv Hen) as (st1 & Hex & Hinv1).
      destruct (IH _ _ _ _ Hinv1 ltac:(lia))
        as (acts & st' & sp' & c & Hrun & Hinv').
      exists (Run 0 :: acts), st', sp', c. cbn [run]. by rewrite Hex.
    + assert (pm = 3%nat) as -> by lia.
      assert (Hnf : is_Finished ph = false).
      { destruct (is_Finished ph) eqn:Hfin; [|done]. exfalso. apply Hen. by right. }
      assert (Hnr : returned ph = false) by (by destruct ph).
      destruct (loop_step _ _ _ _ Hinv ltac:(lia) ltac:(lia) Hnr)
        as (st1 & Hex & [(sp1 & Hinv1)|(c & -> & _)]); [|done].
      pose proof (steps_left_next _ st (inv_phase _ _ _ _ _ Hinv)
                    (inv_tickers _ _ _ _ _ Hinv) Hnr
                    (positive_no_panic _ _ _ _ Hdur Hinv)).
      destruct (IH _ _ _ _ Hinv1 ltac:(lia))
        as (acts & st' & sp' & c & Hrun & Hinv').
      exists (Run 1 :: acts), st', sp', c. cbn [run]. by rewrite Hex.
Qed.

(** X10. [Stop] does not deadlock. When no ticker duration wraps around
    to a value that is not positive, then from every state the goroutines
    of a started manager can reach, whatever the checks and the tickers
    have done, some schedule makes [Stop] return, and nothing has
    panicked when it does. *)
Lemma Stop_can_return (st : State) :
  fresh m -> durations_positive m -> reachable m st ->
  ∃ acts st', run acts st = Some st' ∧ Stop_returned st' ∧ panicked st' = false.
Proof.
  intros Hf Hdur Hr.
  destruct (positive_alive _ Hdur (reachable_inv _ Hf Hr))
    as (pm & ph & sp & Hinv & _).
  destruct (joined_from _ Hdur _ _ _ _ Hinv (Nat.le_refl _))
    as (acts & st' & sp' & c & Hrun & Hinv').
  exists acts, st'. split; [done|]. split.
  - unfold Stop_returned. by rewrite (inv_goroutines _ _ _ _ _ Hinv').
  - by rewrite (inv_panicked _ _ _ _ _ Hinv').
Qed.

(** [healthcheckLoop] can come to each scraper, unless it panics before. *)
Lemma range_step (j : nat) (s : ScraperI) (sp : list (list stmt)) (st : State) :
  reachable m st -> InvAt m 2 (Ranging j 0) sp st ->
  scrapers m !! j = Some s ->
  (tickerDuration s <= 0 ∧ ∃ st', reachable m st' ∧ panicked st' = true)
  ∨ (0 < tickerDuration s
     ∧ ∃ st' sp', reachable m st' ∧ InvAt m 2 (Ranging (S j) 0) sp' st').
Proof.
  intros Hr Hinv Hs.
  assert (Hjn : (j < length (scrapers m))%nat) by (by eapply lookup_lt_Some).
  destruct (loop_step _ _ _ _ Hinv ltac:(lia))
    as (st1 & Hex1 & [(sp1 & Hinv1)|(c & ? & _)]); [|done|..|done].
  { intros [= ?]. lia. }
  pose proof (reachable_step _ _ _ Hr Hex1) as Hr1.
  simpl in Hinv1. rewrite Hs in Hinv1.
  destruct (decide (tickerDuration s <= 0)) as [Hbad|Hgood].
  { left. split; [done|]. exists st1. split; [done|].
    by rewrite (inv_panicked _ _ _ _ _ Hinv1). }
  right. split; [lia|].
  destruct (loop_step _ _ _ _ Hinv1 ltac:(lia))
    as (st2 & Hex2 & [(sp2 & Hinv2)|(c & ? & _)]); [|done|..|done].
  { intros [= ?]. }
  pose proof (reachable_step _ _ _ Hr1 Hex2) as Hr2.
  simpl in Hinv2. rewrite Hs in Hinv2.
  destruct (loop_step _ _ _ _ Hinv2 ltac:(lia))
    as (st3 & Hex3 & [(sp3 & Hinv3)|(c & ? & _)]); [|done|..|done].
  { intros [= ?]. }
  pose proof (reachable_step _ _ _ Hr2 Hex3) as Hr3.
  simpl in Hinv3. rewrite Hs in Hinv3.
  by exists st3, sp3.
Qed.

Lemma started_reachable :
  fresh m -> ∃ st, reachable m st ∧ InvAt m 2 (Ranging 0 0) [] st.
Proof.
  intros Hf.
  destruct (main_step _ _ _ _ (boot_inv Hf) ltac:(lia)) as (st1 & Hex1 & Hinv1).
  destruct (main_step _ _ _ _ Hinv1 ltac:(lia)) as (st2 & Hex2 & Hinv2).
  exists st2. split; [|done].
  exists [Run 0; Run 0]. cbn [run]. by rewrite Hex1, Hex2.
Qed.

Lemma range_reachable (j : nat) :
  fresh m -> (j ≤ length (scrapers m))%nat ->
  (∃ st, reachable m st ∧ panicked st = true)
  ∨ (Forall (λ s, 0 < tickerDuration s) (take j (scrapers m))
     ∧ ∃ st sp, reachable m st ∧ InvAt m 2 (Ranging j 0) sp st).
Proof.
  intros Hf. induction j as [|j IH]; intros Hj.
  - right. split; [by rewrite take_0|].
    destruct (started_reachable Hf) as (st & Hr & Hinv). by exists st, [].
  - destruct (IH ltac:(lia)) as [?|(Hall & st & sp & Hr & Hinv)]; [by left|].
    destruct (lookup_lt_is_Some_2 (scrapers m) j ltac:(lia)) as [s Hs].
    destruct (range_step _ _ _ _ Hr Hinv Hs)
      as [(_ & Hp)|(Hpos & st' & sp' & Hr' & Hinv')]; [by left|].
    right. split; [|by exists st', sp'].
    rewrite (take_S_r _ _ _ Hs). apply Forall_app. split; [done|].
    by constructor.
Qed.

(** X11. The goroutines of a started manager never panic exactly when no
    ticker duration wraps around to a value that is not positive. A check
    being a call that returns a result or an error, as those of the
    repository's scraper do, what can panic is the use of the wait group,
    the stop channel and the tickers: the stop channel is closed once,
    the counter of the wait group never goes below zero and only tickers
    that exist are stopped, so the one panic there can be is that of
    [time.NewTicker], in [healthcheckLoop], and with a duration that is
    not positive some schedule leads to it. *)
Lemma never_panics :
  fresh m ->
  (∀ st, reachable m st -> panicked st = false) ↔ durations_positive m.
Proof.
  intros Hf. split.
  - intros Hnp.
    destruct (range_reachable (length (scrapers m)) Hf (Nat.le_refl _))
      as [(st & Hr & Hp)|(Hall & _)].
    + by rewrite (Hnp _ Hr) in Hp.
    + by rewrite firstn_all in Hall.
  - intros Hdur st Hr.
    destruct (positive_alive _ Hdur (reachable_inv _ Hf Hr))
      as (pm & ph & sp & Hinv & Hpk).
    by rewrite (inv_panicked _ _ _ _ _ Hinv).
Qed.

(** What an action of goroutine [g] leaves alone: the other goroutines,
    unless it ends the process; a closed stop channel; and a tick waiting
    in a ticker, unless [g] creates, selects on or stops that ticker, or
    ends the process. *)
Lemma exec_other_goroutine (a : action) (g g' : nat) (st st' : State)
    (k : list stmt) :
  exec a st = Some st' -> action_of g a -> g' ≠ g ->
  goroutines st !! g' = Some k ->
  goroutines st' !! g' = Some k
  ∨ (goroutines st' = [] ∧ ∃ k0, goroutines st !! g = Some (Crash :: k0)).
Proof.
  intros Hex Ha Hne Hk. unfold exec in Hex.
  assert (Hcont : ∀ st0 k0, goroutines st0 = goroutines st ->
            goroutines (continue st0 g k0) !! g' = Some k).
  { intros st0 k0 Hst0. simpl. rewrite Hst0.
    by rewrite list_lookup_insert_ne. }
  destruct Ha as [-> | ->].
  - destruct (goroutines st !! g) as [[|i k0]|] eqn:Hg; try done.
    destruct i; simpl in Hex; repeat case_match; simplify_eq;
      try (left; by apply Hcont).
    + left. simpl. rewrite lookup_app_l.
      * by rewrite list_lookup_insert_ne.
      * rewrite length_insert. by eapply lookup_lt_Some.
    + right. split; [done|]. by exists k0.
  - destruct (goroutines st !! g) as [[|i k0]|] eqn:Hg; try done.
    destruct i; simpl in Hex; repeat case_match; simplify_eq.
    left. by apply Hcont.
Qed.

Lemma exec_stop_closed (a : action) (st st' : State) :
  exec a st = Some st' -> stopChan (mgr st) = true ->
  stopChan (mgr st') = true.
Proof.
  intros Hex Hc. unfold exec in Hex.
  destruct a as [t|g|g].
  - repeat case_match; by simplify_eq.
  - destruct (goroutines st !! g) as [[|i k0]|] eqn:Hg; try done.
    destruct i; simpl in Hex; repeat case_match; by simplify_eq.
  - destruct (goroutines st !! g) as [[|i k0]|] eqn:Hg; try done.
    destruct i; simpl in Hex; repeat case_match; by simplify_eq.
Qed.

Lemma exec_tick_kept (a : action) (g t : nat) (st st' : State) (tk : Ticker) :
  exec a st = Some st' -> action_of g a ->
  tickers st !! t = Some tk -> pending tk = true ->
  (∃ c k, goroutines st !! g = Some (c :: k)
     ∧ ((∃ d, c = NewTicker t d) ∨ (∃ b, c = ForSelect t b)
        ∨ c = TickerStop t ∨ c = Crash))
  ∨ (∃ tk', tickers st' !! t = Some tk' ∧ pending tk' = true).
Proof.
  intros Hex Ha Htk Hpend. unfold exec in Hex.
  assert (Hsame : ∀ st0, tickers st0 = tickers st ->
            ∃ tk', tickers st0 !! t = Some tk' ∧ pending tk' = true).
  { intros st0 ->. by exists tk. }
  destruct Ha as [-> | ->].
  - destruct (goroutines st !! g) as [[|i k0]|] eqn:Hg; try done.
    destruct i as [d| | | | |t0 sec|t0|body|s|t0 body| | |]; simpl in Hex;
      repeat case_match; simplify_eq;
      try (right; by apply Hsame).
    + destruct (decide (t0 = t)) as [->|Hne]; [left; eauto 10|].
      right. exists tk. simpl. by rewrite lookup_insert_ne.
    + destruct (decide (t0 = t)) as [->|Hne]; [left; eauto 10|].
      right. exists tk. simpl. by rewrite lookup_insert_ne.
    + left. eauto 10.
  - destruct (goroutines st !! g) as [[|i k0]|] eqn:Hg; try done.
    destruct i as [d| | | | |t0 sec|t0|body|s|t0 body| | |]; simpl in Hex;
      repeat case_match; simplify_eq.
    destruct (decide (t0 = t)) as [->|Hne]; [left; eauto 10|].
    right. exists tk. simpl. by rewrite lookup_insert_ne.
Qed.

(** The first statement of a goroutine started by [healthcheckLoop]. *)
Lemma head_worker (pm : nat) (ph : phase) (sp : list (list stmt))
    (st : State) (i : nat) (c : stmt) (k : list stmt) :
  InvAt m pm ph sp st ->
  goroutines st !! S (S i) = Some (c :: k) ->
  ∃ j s, scrapers m !! j = Some s
    ∧ ((c = Call_runSingleHealthcheck s
        ∧ (k = [] ∧ i = (2 * j)%nat ∨ k = tickerLoop j s ∧ i = (2 * j + 1)%nat))
       ∨ (c = ForSelect j [Call_runSingleHealthcheck s] ∧ k = []
          ∧ i = (2 * j + 1)%nat)).
Proof.
  intros Hinv Hg0.
  rewrite (worker_lookup _ _ _ _ _ Hinv) in Hg0.
  destruct (inv_workers _ _ _ _ _ Hinv _ _ Hg0)
    as (j & s & Hs & [[Hi Hsh]|[Hi Hsh]]); exists j, s; (split; [done|]).
  - destruct Hsh; simplify_eq. left. split; [done|]. by left.
  - unfold tickerLoop in Hsh.
    destruct Hsh as [?|[?|?]]; simplify_eq; [by right|].
    left. split; [done|]. by right.
Qed.

(** The statements only [healthcheckLoop] executes. *)
Lemma head_loop_only (pm : nat) (ph : phase) (sp : list (list stmt))
    (st : State) (g : nat) (c : stmt) (k : list stmt) :
  InvAt m pm ph sp st ->
  goroutines st !! g = Some (c :: k) ->
  match c with
  | WgAdd _ | CloseStop | WgWait => g = 0%nat
  | NewTicker t _ => g = 1%nat ∧ ph = Ranging t 0
  | RecvStop | Return => g = 1%nat
  | WgDone | RangeTickers | TickerStop _ | Crash =>
    g = 1%nat ∧ (pk_of ph = true ∨ past_recv ph)
  | Go _ => (g ≤ 1)%nat
  | Call_runSingleHealthcheck _ | ForSelect _ _ => (2 ≤ g)%nat
  end.
Proof.
  intros Hinv Hg0. destruct g as [|[|i]].
  - rewrite (inv_goroutines _ _ _ _ _ Hinv) in Hg0. simpl in Hg0.
    pose proof (inv_pm _ _ _ _ _ Hinv).
    destruct pm as [|[|[|[|[|pm]]]]]; try lia;
      cbv [main_cont Start Stop drop app] in Hg0; simplify_eq;
      simpl; try done; lia.
  - destruct (decide (pm < 2)%nat) as [Hlt|?].
    { by rewrite (loop_absent _ _ _ _ Hinv Hlt) in Hg0. }
    rewrite (loop_lookup _ _ _ _ Hinv) in Hg0 by lia. simplify_eq.
    pose proof (loop_head _ _ _ (inv_phase _ _ _ _ _ Hinv) Hg0) as Hc.
    destruct c; try done; lia.
  - destruct (head_worker _ _ _ _ _ _ _ Hinv Hg0)
      as (j & s & _ & [[-> _]|[-> _]]); lia.
Qed.

Lemma pk_bad (pm : nat) (ph : phase) (sp : list (list stmt)) (st : State) :
  InvAt m pm ph sp st -> pk_of ph = true -> ¬ durations_positive m.
Proof.
  intros Hinv Hpk Hdur.
  by rewrite (positive_no_panic _ _ _ _ Hdur Hinv) in Hpk.
Qed.

(** While every check hangs, a goroutine that is in a check stays
    there. *)
Lemma run_hung_ended (acts : list action) :
  ∀ st st', goroutines st = [] -> run_hung acts st = Some st' ->
    goroutines st' = [].
Proof.
  induction acts as [|a acts IH]; intros st st' Hg Hrun; simpl in Hrun.
  - by simplify_eq.
  - destruct (is_check a st); [done|].
    destruct (exec a st) as [st1|] eqn:Hex; [|done].
    eapply IH; [|done]. unfold exec in Hex. rewrite Hg in Hex.
    destruct a; simpl in Hex; repeat case_match; by simplify_eq.
Qed.

Lemma hung_check_waits (acts : list action) :
  ∀ st st' g s k,
    goroutines st !! g = Some (Call_runSingleHealthcheck s :: k) ->
    run_hung acts st = Some st' ->
    goroutines st' !! g = Some (Call_runSingleHealthcheck s :: k)
    ∨ goroutines st' = [].
Proof.
  induction acts as [|a acts IH]; intros st st' g s k Hg Hrun; simpl in Hrun.
  - simplify_eq. by left.
  - destruct (is_check a st) eqn:Hchk; [done|].
    destruct (exec a st) as [st1|] eqn:Hex; [|done].
    assert (Hst1 : goroutines st1 !! g = Some (Call_runSingleHealthcheck s :: k)
                   ∨ goroutines st1 = []).
    { destruct a as [t|g0|g0].
      - left. unfold exec in Hex. repeat case_match; by simplify_eq.
      - destruct (decide (g = g0)) as [<-|Hne].
        + simpl in Hchk. by rewrite Hg in Hchk.
        + destruct (exec_other_goroutine _ g0 g _ _ _ Hex ltac:(by left) Hne Hg)
            as [?|[? _]]; auto.
      - destruct (decide (g = g0)) as [<-|Hne].
        + unfold exec in Hex. by rewrite Hg in Hex.
        + destruct (exec_other_goroutine _ g0 g _ _ _ Hex ltac:(by right) Hne Hg)
            as [?|[? _]]; auto. }
    destruct Hst1 as [Hst1|Hst1].
    + by eapply IH.
    + right. by eapply run_hung_ended.
Qed.

(** A ticker loop that hands the check to a goroutine of its own is back
    at its select while the check hangs. *)
Lemma dispatched_check_moves_on (st : State) (g t : nat) (s : ScraperI)
    (k : list stmt) :
  goroutines st !! g
  = Some (Go [Call_runSingleHealthcheck s]
          :: ForSelect t [Go [Call_runSingleHealthcheck s]] :: k) ->
  ∃ st', run_hung [Run g] st = Some st' ∧ at_select st' g.
Proof.
  intros Hg. eexists. split.
  - simpl. rewrite Hg. simpl. reflexivity.
  - exists t, [Go [Call_runSingleHealthcheck s]], k. simpl.
    rewrite lookup_app_l by (rewrite length_insert; by eapply lookup_lt_Some).
    apply list_lookup_insert_eq. by eapply lookup_lt_Some.
Qed.

(** C7, as the code has it. In every state the goroutines of a started
    manager can reach:
    - a goroutine that takes a tick is the ticker loop of one scraper,
      it was at its select, and it goes on with the check of that scraper
      itself, its select coming after the check; no goroutine is started
      for the check;
    - while that check hangs, whatever else happens, the goroutine is not
      back at its select;
    - whatever another goroutine does, a goroutine started by
      [healthcheckLoop] keeps the steps it could take: a waiting tick or
      the closed stop channel stays there for it, and it is never made to
      wait for another scraper's check. The one goroutine that can take
      a step away is [healthcheckLoop] itself, and only when the manager
      is stopping (its deferred [ticker.Stop()]) or when a ticker
      duration is not positive (its panic, which ends the process);
    - [healthcheckLoop] never runs a check itself: the initial checks
      are handed to goroutines of their own. *)
Theorem ticks_run_checks_in_place (st : State) :
  fresh m -> reachable m st ->
  (∀ g st', exec (RunTick g) st = Some st' ->
     ∃ j s, scrapers m !! j = Some s
       ∧ g = (2 * j + 3)%nat
       ∧ goroutines st !! g = Some (tickerLoop j s)
       ∧ goroutines st' !! g
         = Some (Call_runSingleHealthcheck s :: tickerLoop j s)
       ∧ length (goroutines st') = length (goroutines st))
  ∧ (∀ g st' acts st'',
       exec (RunTick g) st = Some st' -> run_hung acts st' = Some st'' ->
       ¬ at_select st'' g)
  ∧ (∀ g g' a a' st',
       g' ≠ g -> (2 ≤ g')%nat -> action_of g a -> action_of g' a' ->
       exec a st = Some st' ->
       is_Some (exec a' st) ->
       is_Some (exec a' st')
       ∨ (g = 1%nat
          ∧ (stopChan (mgr st') = true ∨ ¬ durations_positive m)))
  ∧ (∀ c k s, goroutines st !! 1%nat = Some (c :: k) ->
       c ≠ Call_runSingleHealthcheck s).
Proof.
  intros Hf Hr.
  assert (Htick : ∀ g st', exec (RunTick g) st = Some st' ->
     ∃ j s, scrapers m !! j = Some s
       ∧ g = (2 * j + 3)%nat
       ∧ goroutines st !! g = Some (tickerLoop j s)
       ∧ goroutines st' !! g
         = Some (Call_runSingleHealthcheck s :: tickerLoop j s)
       ∧ length (goroutines st') = length (goroutines st)).
  { intros g st' Hex.
    destruct (reachable_inv _ Hf Hr) as [(pm & ph & sp & Hinv)|Hdead];
      [|by rewrite (dead_stuck _ _ Hdead) in Hex].
    destruct g as [|[|i]].
    + by rewrite (main_no_tick _ _ _ _ Hinv) in Hex.
    + by rewrite (loop_no_tick _ _ _ _ Hinv) in Hex.
    + destruct (worker_tick _ _ _ _ _ _ Hinv Hex)
        as (j & s & Hs & -> & Hsp & Hg' & Hlen & _).
      exists j, s. split; [done|]. split; [lia|].
      rewrite (worker_lookup _ _ _ _ _ Hinv). done. }
  split; [done|]. split; [|split].
  - intros g st' acts st'' Hex Hrun (t & body & k & Hsel).
    destruct (Htick _ _ Hex) as (j & s & _ & _ & _ & Hg' & _).
    destruct (hung_check_waits _ _ _ _ _ _ Hg' Hrun) as [Hg''|Hg''];
      rewrite Hg'' in Hsel; done.
  - intros g g' a a' st' Hne Hg2 Ha Ha' Hex Hen.
    destruct (reachable_inv _ Hf Hr) as [(pm & ph & sp & Hinv)|Hdead];
      [|by rewrite (dead_stuck _ _ Hdead) in Hex].
    assert (Hloop : ∀ c k, goroutines st !! g = Some (c :: k) ->
              c = Crash ∨ (∃ t, c = TickerStop t) ->
              g = 1%nat
              ∧ (stopChan (mgr st') = true ∨ ¬ durations_positive m)).
    { intros c k Hgc Hc.
      pose proof (head_loop_only _ _ _ _ _ _ _ Hinv Hgc) as Hh.
      assert (Hh' : g = 1%nat ∧ (pk_of ph = true ∨ past_recv ph))
        by (destruct Hc as [->|[t ->]]; exact Hh).
      destruct Hh' as [-> [Hpk|Hpast]]; (split; [done|]).
      - right. by eapply pk_bad.
      - left. apply (exec_stop_closed _ _ _ Hex).
        rewrite (inv_stopChan _ _ _ _ _ Hinv). apply bool_decide_eq_true_2.
        by apply (inv_closed _ _ _ _ _ Hinv). }
    destruct g' as [|[|i]]; [lia|lia|].
    destruct Hen as [st1 Hen].
    assert (Hgi : ∃ c k, goroutines st !! S (S i) = Some (c :: k)).
    { unfold exec in Hen.
      destruct Ha' as [-> | ->];
        destruct (goroutines st !! S (S i)) as [[|c k]|]; try done; eauto. }
    destruct Hgi as (c & k & Hgi).
    destruct (exec_other_goroutine _ _ _ _ _ _ Hex Ha Hne Hgi)
      as [Hgi'|(_ & k0 & Hcr)]; [|right; eapply Hloop; eauto].
    unfold exec in Hen |- *.
    destruct (head_worker _ _ _ _ _ _ _ Hinv Hgi)
      as (j & s & Hs & [(-> & _)|(-> & -> & ->)]).
    + destruct Ha' as [-> | ->]; rewrite Hgi in Hen; [|done].
      left. by rewrite Hgi'.
    + destruct Ha' as [-> | ->]; rewrite Hgi in Hen; rewrite Hgi'; simpl in *.
      * destruct (stopChan (mgr st)) eqn:Hc; [|done].
        left. by rewrite (exec_stop_closed _ _ _ Hex Hc).
      * destruct (tickers st !! j) as [tk|] eqn:Htk; [|done].
        destruct (pending tk) eqn:Hpend; [|done].
        destruct (exec_tick_kept _ _ _ _ _ _ Hex Ha Htk Hpend)
          as [(c & k0 & Hg0 & Hc)|(tk' & Htk' & Hpend')].
        -- pose proof (head_loop_only _ _ _ _ _ _ _ Hinv Hg0) as Hh.
           destruct Hc as [[d ->]|[[b ->]|[->| ->]]].
           ++ destruct Hh as [-> ->].
              assert (Hlt : (2 * j + 1 < length sp)%nat).
              { apply lookup_lt_is_Some.
                rewrite <- (worker_lookup _ _ _ _ _ Hinv). eauto. }
              rewrite (inv_count _ _ _ _ _ Hinv) in Hlt. simpl in Hlt. lia.
           ++ destruct g as [|[|i0]]; [simpl in Hh; lia|simpl in Hh; lia|].
              destruct (head_worker _ _ _ _ _ _ _ Hinv Hg0)
                as (j0 & s0 & _ & [(? & _)|(? & _ & ->)]); [done|].
              simplify_eq.
           ++ right. eapply Hloop; eauto.
           ++ right. eapply Hloop; eauto.
        -- left. rewrite Htk', Hpend'. done.
  - intros c k s Hg1 ->.
    destruct (reachable_inv _ Hf Hr) as [(pm & ph & sp & Hinv)|Hdead].
    + pose proof (head_loop_only _ _ _ _ _ _ _ Hinv Hg1). simpl in *. lia.
    + destruct Hdead as (Hg & _). by rewrite Hg in Hg1.
Qed.

End GoroutineFacts.

Section GoroutinesOnTestData.

Import scraper healthcheck testdata.

Lemma manager1_fresh : fresh manager1.
Proof. split; reflexivity. Qed.

Lemma manager1_durations : durations_positive manager1.
Proof. repeat constructor. Qed.

Lemma until_tick_reachable : reachable manager1 (state_after until_tick).
Proof. exists until_tick. vm_compute. reflexivity. Qed.

Lemma tick_then_stop_reachable : reachable manager1 (state_after tick_then_stop).
Proof. exists tick_then_stop. vm_compute. reflexivity. Qed.

(** C6 fails on the code. With one scraper, [Stop] returns as soon as
    [healthcheckLoop] has returned: the stop channel is closed and the
    wait group is at zero, while the ticker loop of the scraper
    (goroutine 3) has not looked at the stop channel. In the first
    schedule it still waits at its select; in the second it took a tick
    before [Stop] was called and is in its check. The initial check
    (goroutine 2) has not finished either. *)
Theorem Stop_returns_before_tickerLoop_exits :
  (∃ st, run start_then_stop (boot manager1) = Some st
     ∧ Stop_returned st
     ∧ stopChan (mgr st) = true
     ∧ wg (mgr st) = 0
     ∧ goroutines st !! 1%nat = Some []
     ∧ goroutines st !! 3%nat = Some (tickerLoop 0 probe1)
     ∧ at_select st 3)
  ∧ (∃ st, run tick_then_stop (boot manager1) = Some st
       ∧ Stop_returned st
       ∧ stopChan (mgr st) = true
       ∧ wg (mgr st) = 0
       ∧ goroutines st !! 1%nat = Some []
       ∧ goroutines st !! 2%nat = Some [Call_runSingleHealthcheck probe1]
       ∧ goroutines st !! 3%nat
         = Some (Call_runSingleHealthcheck probe1 :: tickerLoop 0 probe1)
       ∧ in_tickerLoop st 3).
Proof.
  split.
  - exists (state_after start_then_stop).
    split; [vm_compute; reflexivity|].
    repeat split; try (vm_compute; reflexivity).
    exists 0%nat, [Call_runSingleHealthcheck probe1], [].
    vm_compute. reflexivity.
  - exists (state_after tick_then_stop).
    split; [vm_compute; reflexivity|].
    repeat split; try (vm_compute; reflexivity).
    exists (Call_runSingleHealthcheck probe1 :: tickerLoop 0 probe1),
           0%nat, [Call_runSingleHealthcheck probe1].
    split; [vm_compute; reflexivity|].
    apply list_elem_of_further, list_elem_of_here.
Qed.

(** The same against the words of the specification: it is not so that
    whenever [Stop] has returned no goroutine is left in a ticker loop. *)
Lemma Stop_does_not_join_tickerLoops :
  ¬ (∀ st, reachable manager1 st -> Stop_returned st ->
       ∀ g, ¬ in_tickerLoop st g).
Proof.
  intros Hjoin.
  apply (Hjoin (state_after tick_then_stop) tick_then_stop_reachable
           ltac:(vm_compute; reflexivity) 3%nat).
  exists (Call_runSingleHealthcheck probe1 :: tickerLoop 0 probe1),
         0%nat, [Call_runSingleHealthcheck probe1].
  split; [vm_compute; reflexivity|].
  apply list_elem_of_further, list_elem_of_here.
Qed.

(** C7, as the specification words it, fails. It asks that a tick hands
    the check over and moves on, not waiting for the outcome of the
    check: the goroutine that took the tick would then get back to its
    select on a schedule on which the check hangs, as a loop that starts
    a goroutine for the check does ([dispatched_check_moves_on]). In the
    code the goroutine that takes the tick is in the check, and while the
    check hangs it stays there. *)
Lemma hung_check_holds_tickerLoop :
  ¬ (∀ st g st', reachable manager1 st ->
       exec (RunTick g) st = Some st' ->
       ∃ acts st'', run_hung acts st' = Some st'' ∧ at_select st'' g).
Proof.
  intros Hall.
  destruct (Hall (state_after until_tick) 3%nat
              (state_after (until_tick ++ [RunTick 3%nat]))
              until_tick_reachable ltac:(vm_compute; reflexivity))
    as (acts & st'' & Hrun & t & body & k & Hsel).
  destruct (hung_check_waits acts
              (state_after (until_tick ++ [RunTick 3%nat])) st''
              3%nat probe1 (tickerLoop 0 probe1)
              ltac:(vm_compute; reflexivity) Hrun) as [Hg|Hg];
    rewrite Hg in Hsel; done.
Qed.

Lemma ticks_run_checks_in_place_witness :
  (∃ j s, scrapers manager1 !! j = Some s
     ∧ 3%nat = (2 * j + 3)%nat
     ∧ goroutines (state_after (until_tick ++ [RunTick 3%nat])) !! 3%nat
       = Some (Call_runSingleHealthcheck s :: tickerLoop j s)
     ∧ length (goroutines (state_after (until_tick ++ [RunTick 3%nat])))
       = length (goroutines (state_after until_tick)))
  ∧ ¬ at_select (state_after (until_tick ++ [RunTick 3; Fire 0; Run 0]%nat)) 3
  ∧ is_Some (exec (RunTick 3%nat) (state_after (until_tick ++ [Run 2%nat]))).
Proof.
  destruct (ticks_run_checks_in_place manager1 (state_after until_tick)
              manager1_fresh until_tick_reachable) as (Htick & Hhung & Hkeep & _).
  split; [|split].
  - destruct (Htick 3%nat (state_after (until_tick ++ [RunTick 3%nat]))
                ltac:(vm_compute; reflexivity))
      as (j & s & Hs & Hg & _ & Hg' & Hlen).
    exists j, s. repeat split; assumption.
  - apply (Hhung 3%nat (state_after (until_tick ++ [RunTick 3%nat]))
             [Fire 0; Run 0]%nat).
    + vm_compute. reflexivity.
    + vm_compute. reflexivity.
  - destruct (Hkeep 2%nat 3%nat (Run 2%nat) (RunTick 3%nat)
                (state_after (until_tick ++ [Run 2%nat]))) as [Hen|[Hg _]].
    + lia.
    + lia.
    + by left.
    + by right.
    + vm_compute. reflexivity.
    + vm_compute. eexists. reflexivity.
    + exact Hen.
    + discriminate Hg.
Defined.

(** The run of the manager's test: [Start], then [Stop]; the checks that
    were running end afterwards, each with its ping. *)
Example Start_Stop_then_checks_end :
  ∃ st, run (tick_then_stop ++ [Run 2; Run 3; Run 3]%nat) (boot manager1) = Some st
    ∧ goroutines st = [[]; []; []; []]
    ∧ pinged st = ["http://localhost:8081/ping"; "http://localhost:8081/ping"].
Proof.
  eexists. split; [vm_compute; reflexivity|]. split; reflexivity.
Qed.

(** An interval of 9223372037 seconds: its duration wraps around to a
    negative int64, [time.NewTicker] panics, and [healthcheckLoop] leaves
    through its deferred calls, which stop the ticker of the first
    scraper and bring the wait group to zero while the stop channel is
    still open; then the process ends, the goroutines of the first
    scraper with it. *)
Example NewTicker_overflow_ends_the_process :
  tickerDuration (probe_of (tunnel 9223372037)) = -9223372036709551616
  ∧ (∃ st, run until_overflow (boot manager2) = Some st
       ∧ panicked st = true
       ∧ goroutines st !! 1%nat = Some [RangeTickers; WgDone; Crash]
       ∧ in_tickerLoop st 3)
  ∧ (∃ st, run (until_overflow ++ [Run 1; Run 1; Run 1]%nat) (boot manager2)
           = Some st
       ∧ stopChan (mgr st) = false
       ∧ wg (mgr st) = 0
       ∧ tickers st !! 0%nat
         = Some {| period := 120 * Second; running := false; pending := false |}
       ∧ goroutines st !! 1%nat = Some [Crash])
  ∧ (∃ st, run overflow_then_crash (boot manager2) = Some st
       ∧ goroutines st = []
       ∧ ∀ a, exec a st = None).
Proof.
  split; [vm_compute; reflexivity|]. split; [|split].
  - exists (state_after2 until_overflow).
    split; [vm_compute; reflexivity|].
    repeat split; try (vm_compute; reflexivity).
    exists (tickerLoop 0 probe1), 0%nat, [Call_runSingleHealthcheck probe1].
    split; [vm_compute; reflexivity|]. apply list_elem_of_here.
  - exists (state_after2 (until_overflow ++ [Run 1; Run 1; Run 1]%nat)).
    split; [vm_compute; reflexivity|].
    repeat split; vm_compute; reflexivity.
  - exists (state_after2 overflow_then_crash).
    split; [vm_compute; reflexivity|]. split; [vm_compute; reflexivity|].
    intros [t|g|g]; vm_compute; reflexivity.
Qed.

(** An interval of 18446744074 seconds wraps around to a positive
    duration: the ticker is created, with a period of 0.29 seconds. *)
Example NewTicker_overflow_short_period :
  tickerDuration (probe_of (tunnel 18446744074)) = 290448384.
Proof. vm_compute. reflexivity. Qed.

End GoroutinesOnTestData.

(** * Further properties of the code *)

(** ** The scraper and the factory *)

Section MoreScrapeFacts.

Import scraper.

Context `{Net}.

(** X1. A healthy result is never a false positive: when [Scrape]
    returns a result that is healthy, the request was built, the GET was
    answered with status 200, the body decoded, the decoded status is 200
    and at least one connection is ready; the message is the healthy
    one. *)
Theorem Scrape_healthy_only_if
    (c : CloudflaredTunnelScraper) (cx : ctx) (r : ScrapeResult) :
  Scrape c cx = Ok r ->
  Healthy r = true ->
  ∃ req resp t,
    http_NewRequestWithContext cx "GET" (scrapeURL c) = Ok req
    ∧ client_Do (client c) req = Ok resp
    ∧ StatusCode resp = 200
    ∧ json_Decode (Body resp) = Ok t
    ∧ Status t = 200
    ∧ ReadyConnections t > 0
    ∧ Message r = "Tunnel healthy with " +:+ pretty (ReadyConnections t)
                  +:+ " ready connections".
Proof.
  simpl. unfold cf_Scrape. intros Hr Hh.
  destruct (http_NewRequestWithContext cx "GET" (scrapeURL c)) as [req|e]
    eqn:Hreq; [|done].
  destruct (client_Do (client c) req) as [resp|e] eqn:Hdo; [|by simplify_eq].
  destruct (decide (StatusCode resp ≠ 200)) as [Hne|Heq]; [by simplify_eq|].
  destruct (json_Decode (Body resp)) as [t|e] eqn:Hdec; [|by simplify_eq].
  injection Hr as <-. simpl in Hh.
  apply andb_true_iff in Hh as [Hs Hc].
  apply bool_decide_eq_true in Hs. apply bool_decide_eq_true in Hc.
  exists req, resp, t. repeat split; try done.
  - destruct (decide (StatusCode resp = 200)) as [?|Hd]; [done|].
    by destruct (Heq Hd).
  - simpl. rewrite (bool_decide_eq_true_2 _ Hs), (bool_decide_eq_true_2 _ Hc).
    done.
Qed.

(** X2. On a transport error and on a body that does not decode, the
    details of the result are the map with the single key [error], bound
    to the text of the error. *)
Theorem Scrape_error_details (c : CloudflaredTunnelScraper) (cx : ctx) :
  (∀ req e,
     http_NewRequestWithContext cx "GET" (scrapeURL c) = Ok req ->
     client_Do (client c) req = Err e ->
     ∃ r, Scrape c cx = Ok r ∧ Details r = {[ "error" := VString e ]})
  ∧ (∀ req resp e,
       http_NewRequestWithContext cx "GET" (scrapeURL c) = Ok req ->
       client_Do (client c) req = Ok resp ->
       StatusCode resp = 200 ->
       json_Decode (Body resp) = Err e ->
       ∃ r, Scrape c cx = Ok r ∧ Details r = {[ "error" := VString e ]}).
Proof.
  simpl. unfold cf_Scrape. split.
  - intros req e -> ->. eexists. done.
  - intros req resp e -> -> Hcode ->.
    destruct (decide (StatusCode resp ≠ 200)); [done|]. eexists. done.
Qed.

(** X3. What the factory builds answers with what the entry of the
    configuration says: its type is the entry's kind, its ping URL the
    entry's, its interval the entry's, or 30 when that is not positive;
    and the factory builds a scraper exactly for the known kind. *)
Theorem CreateScraper_accessors
    (f : Factory) (spec : config.HealthcheckScraper) :
  (is_Err (CreateScraper f spec)
   ↔ config.Type_ spec ≠ "cloudflared-tunnel-connector")
  ∧ (∀ s, CreateScraper f spec = Ok s ->
       I_Type s = config.Type_ spec
       ∧ I_GetPingURL s = config.PingURL spec
       ∧ I_GetScrapeInterval s
         = (if decide (config.ScrapeIntervalSeconds spec <= 0) then 30
            else config.ScrapeIntervalSeconds spec)).
Proof.
  unfold CreateScraper. split.
  - destruct (decide _); simpl; split; done.
  - intros s. destruct (decide _) as [Hk|]; [|done]. intros [= <-].
    rewrite Hk. done.
Qed.

End MoreScrapeFacts.

(** ** Initialize, the checks and the start-up *)

Section MoreManagerFacts.

Import scraper healthcheck.

Context `{Net}.

Lemma Initialize_range_frame (cfgs : list config.HealthcheckScraper) :
  ∀ m,
    config (Initialize_range m cfgs).1 = config m
    ∧ factory (Initialize_range m cfgs).1 = factory m
    ∧ httpClient (Initialize_range m cfgs).1 = httpClient m
    ∧ stopChan (Initialize_range m cfgs).1 = stopChan m
    ∧ wg (Initialize_range m cfgs).1 = wg m
    ∧ ((Initialize_range m cfgs).2 = None ↔ Forall known_kind cfgs)
    ∧ ∃ added,
        scrapers (Initialize_range m cfgs).1 = scrapers m ++ added
        ∧ (length added ≤ length cfgs)%nat
        ∧ ((Initialize_range m cfgs).2 = None -> length added = length cfgs)
        ∧ Forall (λ s, I_Type s = "cloudflared-tunnel-connector"
                       ∧ I_GetScrapeInterval s > 0) added.
Proof.
  induction cfgs as [|c cfgs IH]; intros m; simpl.
  - repeat split; try done. exists []. rewrite app_nil_r. by repeat split.
  - unfold CreateScraper.
    destruct (decide (config.Type_ c = "cloudflared-tunnel-connector"))
      as [Hk|Hk]; simpl.
    + destruct (IH (set_scrapers m
                      (scrapers m ++ [as_Scraper
                         (NewCloudflaredTunnelScraper (config.ScrapeURL c)
                            (config.PingURL c)
                            (config.ScrapeIntervalSeconds c))])))
        as (Hc & Hf & Hh & Hs & Hw & Hiff & added & Hadd & Hlen & Hall & HP).
      repeat split; try done.
      * intros Hn. constructor; [done|]. by apply Hiff.
      * intros Hall'. apply Hiff. by apply Forall_cons in Hall' as [_ ?].
      * eexists (_ :: added). rewrite Hadd. simpl. rewrite <- app_assoc.
        split; [done|]. split; [lia|]. split; [intros Hn; by rewrite Hall|].
        constructor; [|done]. split; [done|].
        unfold I_GetScrapeInterval. simpl.
        unfold cf_GetScrapeInterval, NewCloudflaredTunnelScraper. simpl.
        destruct (decide (config.ScrapeIntervalSeconds c <= 0)); lia.
    + repeat split; try done.
      * intros Hall. by apply Forall_cons in Hall as [? _].
      * exists []. rewrite app_nil_r. repeat split; try done.
        simpl. lia.
Qed.

(** X4. [Initialize] only appends to the scrapers of the manager: in
    every case the configuration, the factory, the HTTP client, the stop
    channel and the wait group are as before and the scrapers held before
    the call are still there, in front. What is appended is at most one
    scraper per entry, each of the known type and with a positive
    interval. The call returns no error exactly when every entry is of
    the known kind, and then the list has grown by the number of
    entries. *)
Theorem Initialize_only_appends (m : Manager) :
  config (Initialize m).1 = config m
  ∧ factory (Initialize m).1 = factory m
  ∧ httpClient (Initialize m).1 = httpClient m
  ∧ stopChan (Initialize m).1 = stopChan m
  ∧ wg (Initialize m).1 = wg m
  ∧ ((Initialize m).2 = None
     ↔ Forall known_kind (config.Scrapers (config m)))
  ∧ ∃ added,
      scrapers (Initialize m).1 = scrapers m ++ added
      ∧ (length added ≤ length (config.Scrapers (config m)))%nat
      ∧ ((Initialize m).2 = None ->
         length added = length (config.Scrapers (config m)))
      ∧ Forall (λ s, I_Type s = "cloudflared-tunnel-connector"
                     ∧ I_GetScrapeInterval s > 0) added.
Proof. unfold Initialize. apply Initialize_range_frame. Qed.

(** X5. [Initialize] does not guard against being called again: a second
    call on a manager whose entries are all of the known kind builds the
    scrapers a second time and appends them after the first ones. *)
Theorem Initialize_twice_appends_twice (m : Manager) :
  Forall known_kind (config.Scrapers (config m)) ->
  Initialize (Initialize m).1
  = (set_scrapers m
       (scrapers m
        ++ (probe_of <$> config.Scrapers (config m))
        ++ (probe_of <$> config.Scrapers (config m))),
     None).
Proof.
  intros Hall. unfold Initialize.
  rewrite (Initialize_range_known _ m Hall). simpl.
  rewrite (Initialize_range_known _ _ Hall).
  unfold set_scrapers. simpl. by rewrite <- app_assoc.
Qed.

(** X6. One check sends at most one ping, and only to the ping URL of the
    scraper, only when that URL is not empty and the check returned a
    healthy result. When the result is healthy, the URL is not empty and
    the request can be built, the ping is sent, whatever the answer to it
    is. *)
Theorem runSingleHealthcheck_pings (m : Manager) (s : ScraperI) :
  (length (runSingleHealthcheck m s) ≤ 1)%nat
  ∧ (∀ u, u ∈ runSingleHealthcheck m s ->
       u = I_GetPingURL s ∧ u ≠ ""
       ∧ ∃ r, I_Scrape s (context_WithTimeout 30) = Ok r ∧ Healthy r = true)
  ∧ (∀ r req,
       I_Scrape s (context_WithTimeout 30) = Ok r -> Healthy r = true ->
       I_GetPingURL s ≠ "" ->
       http_NewRequestWithContext (context_WithTimeout 10) "GET"
         (I_GetPingURL s) = Ok req ->
       runSingleHealthcheck m s = [I_GetPingURL s]).
Proof.
  unfold runSingleHealthcheck, pingSuccessURL. split; [|split].
  - repeat case_match; simpl; lia.
  - intros u Hu.
    destruct (I_Scrape s (context_WithTimeout 30)) as [r|e]; [|by inversion Hu].
    destruct (Healthy r) eqn:Hh; [|by inversion Hu].
    destruct (decide (I_GetPingURL s = "")) as [|Hne]; [by inversion Hu|].
    assert (u = I_GetPingURL s) as ->.
    { repeat case_match; try (by inversion Hu);
        by apply list_elem_of_singleton in Hu. }
    eauto.
  - intros r req -> -> Hne ->.
    destruct (decide (I_GetPingURL s = "")); [done|].
    by destruct (client_Do (httpClient m) req).
Qed.

(** X7. From the entry of the configuration to the ping: a check of the
    scraper built for an entry pings nothing but the entry's ping URL, and
    pings it only when the GET to the entry's scrape URL, made under the
    30 second deadline with the client whose timeout is 10 seconds, was
    answered with status 200 and a body that decodes to status 200 and at
    least one ready connection. *)
Theorem ping_means_tunnel_ready
    (m : Manager) (spec : config.HealthcheckScraper) (u : string) :
  u ∈ runSingleHealthcheck m (probe_of spec) ->
  u = config.PingURL spec
  ∧ u ≠ ""
  ∧ ∃ req resp t,
      http_NewRequestWithContext (context_WithTimeout 30) "GET"
        (config.ScrapeURL spec) = Ok req
      ∧ client_Do {| Timeout := 10 |} req = Ok resp
      ∧ StatusCode resp = 200
      ∧ json_Decode (Body resp) = Ok t
      ∧ Status t = 200
      ∧ ReadyConnections t > 0.
Proof.
  unfold runSingleHealthcheck, pingSuccessURL, probe_of, I_Scrape, I_GetPingURL.
  simpl. unfold cf_Scrape, cf_GetPingURL. simpl. intros Hu.
  destruct (http_NewRequestWithContext (context_WithTimeout 30) "GET"
              (config.ScrapeURL spec)) as [req|e] eqn:Hreq; [|by inversion Hu].
  destruct (client_Do {| Timeout := 10 |} req) as [resp|e] eqn:Hdo;
    [|by inversion Hu].
  destruct (decide (StatusCode resp ≠ 200)) as [Hne|Heq]; [by inversion Hu|].
  destruct (json_Decode (Body resp)) as [t|e] eqn:Hdec; [|by inversion Hu].
  simpl in Hu.
  destruct (bool_decide (Status t = 200)) eqn:Hs; [|by inversion Hu].
  destruct (bool_decide (ReadyConnections t > 0)) eqn:Hc; [|by inversion Hu].
  simpl in Hu.
  apply bool_decide_eq_true in Hs. apply bool_decide_eq_true in Hc.
  destruct (decide (config.PingURL spec = "")) as [|Hurl]; [by inversion Hu|].
  assert (u = config.PingURL spec) as ->.
  { repeat case_match; try (by inversion Hu);
      by apply list_elem_of_singleton in Hu. }
  split; [done|]. split; [done|].
  exists req, resp, t. repeat split; try done.
  destruct (decide (StatusCode resp = 200)) as [?|Hd]; [done|].
  by destruct (Heq Hd).
Qed.

End MoreManagerFacts.

Section MoreMainFacts.

Import scraper healthcheck.

Context `{Net}.

Variable json_Unmarshal : string -> result (list config.HealthcheckScraper).

Lemma first_unknown (l : list config.HealthcheckScraper) :
  ¬ Forall known_kind l ->
  ∃ pre bad post, l = pre ++ bad :: post
    ∧ Forall known_kind pre ∧ ¬ known_kind bad.
Proof.
  induction l as [|c l IH]; intros Hn.
  - destruct Hn. constructor.
  - destruct (decide (config.Type_ c = "cloudflared-tunnel-connector"))
      as [Hk|Hk].
    + destruct IH as (pre & bad & post & -> & Hpre & Hbad).
      { intros Hall. apply Hn. by constructor. }
      exists (c :: pre), bad, post. split; [done|]. split; [|done].
      by constructor.
    + exists [], c, l. split; [done|]. split; [constructor|done].
Qed.

(** X8. How [main] leaves its start-up, case by case. It returns without
    starting anything exactly when the configuration loads with no
    scrapers. It starts a manager exactly when the configuration loads
    with a list that is not empty and has only entries of the known kind;
    the manager then holds the scrapers of the entries, in order, its stop
    channel is open and its wait group at zero. In every other case it
    ends with a fatal error: that of [NewConfig], or that of the first
    entry of unknown kind. *)
Theorem main_outcomes (env : gmap string string) :
  (cmd.main json_Unmarshal env = cmd.Return
   ↔ config.NewConfig json_Unmarshal env = Ok {| config.Scrapers := [] |})
  ∧ (∀ st, cmd.main json_Unmarshal env = cmd.Started st
       ↔ ∃ l, config.NewConfig json_Unmarshal env
              = Ok {| config.Scrapers := l |}
            ∧ l ≠ [] ∧ Forall known_kind l
            ∧ st = boot (set_scrapers
                           (NewManager {| config.Scrapers := l |})
                           (probe_of <$> l)))
  ∧ (∀ st, cmd.main json_Unmarshal env = cmd.Started st ->
       fresh (mgr st) ∧ scrapers (mgr st) ≠ [])
  ∧ (∀ msg err, cmd.main json_Unmarshal env = cmd.Fatal msg err
       ↔ (msg = "Failed to load configuration"
          ∧ config.NewConfig json_Unmarshal env = Err err)
         ∨ (msg = "Failed to initialize healthcheck manager"
            ∧ ∃ pre bad post,
                config.NewConfig json_Unmarshal env
                = Ok {| config.Scrapers := pre ++ bad :: post |}
                ∧ Forall known_kind pre ∧ ¬ known_kind bad
                ∧ err = "failed to create scraper " +:+ config.Type_ bad
                        +:+ ": " +:+ "unknown scraper type: "
                        +:+ config.Type_ bad)).
Proof.
  unfold cmd.main.
  destruct (config.NewConfig json_Unmarshal env) as [[l]|e0] eqn:Hcfg; simpl.
  - destruct (decide (length l = 0%nat)) as [Hlen|Hlen].
    + apply length_zero_iff_nil in Hlen as ->.
      split; [done|]. split; [|split].
      * intros st. split; [done|]. intros (l & [= <-] & Hne & _). done.
      * done.
      * intros msg err. split; [done|].
        intros [[_ ?]|(_ & pre & bad & post & [= Hl] & _)]; [done|].
        by destruct pre.
    + assert (Hne : l ≠ []) by (intros ->; done).
      destruct (decide (Forall known_kind l)) as [Hall|Hall].
      * unfold Initialize. simpl.
        rewrite (Initialize_range_known l (NewManager {| config.Scrapers := l |}) Hall).
        simpl. split; [|split; [|split]].
        -- split; [done|]. intros [= ->]. done.
        -- intros st. split.
           ++ intros [= <-]. exists l. done.
           ++ intros (l' & [= <-] & _ & _ & ->). done.
        -- intros st [= <-]. split; [done|]. simpl.
           destruct l; [done|]. done.
        -- intros msg err. split; [done|].
           intros [[_ ?]|(_ & pre & bad & post & [= ->] & _ & Hbad & _)];
             [done|].
           apply Forall_app in Hall as [_ Hall].
           by apply Forall_cons in Hall as [? _].
      * destruct (first_unknown l Hall) as (pre & bad & post & -> & Hpre & Hbad).
        unfold Initialize. simpl.
        rewrite (Initialize_range_unknown pre
                   (NewManager {| config.Scrapers := pre ++ bad :: post |})
                   bad post Hpre Hbad).
        simpl. split; [|split; [|split]].
        -- split; [done|]. intros [= Hl]. by destruct pre.
        -- intros st. split; [done|]. intros (l' & [= <-] & _ & Hall' & _). done.
        -- done.
        -- intros msg err. split.
           ++ intros [= <- <-]. right. split; [done|].
              exists pre, bad, post. done.
           ++ intros [[? ?]|(-> & pre' & bad' & post' & [= Hl] & Hpre' & Hbad' & ->)];
                [done|].
              assert (bad' = bad) as ->; [|done].
              clear -Hl Hpre Hbad Hpre' Hbad'.
              revert pre' Hl Hpre'. induction pre as [|c pre IH];
                intros pre' Hl Hpre'.
              ** destruct pre' as [|c' pre']; simpl in Hl; [by simplify_eq|].
                 simplify_eq. by apply Forall_cons in Hpre' as [? _].
              ** apply Forall_cons in Hpre as [Hc Hpre].
                 destruct pre' as [|c' pre']; simpl in Hl; simplify_eq; [done|].
                 apply Forall_cons in Hpre' as [_ Hpre'].
                 by eapply IH.
  - split; [done|]. split; [|split].
    + intros st. split; [done|]. intros (l & ? & _). done.
    + done.
    + intros msg err. split.
      * intros [= <- <-]. by left.
      * intros [[-> [= ->]]|(_ & pre & bad & post & ? & _)]; done.
Qed.

End MoreMainFacts.

(** ** The goroutines: tickers, pings and shutdown *)

Section MoreGoroutineFacts.

Import scraper healthcheck.

Context `{Net} `{Runtime}.

Variable m : Manager.

Lemma loop_cont_nil (ph : phase) :
  phase_ok m ph -> loop_cont m ph = [] -> ∃ c, ph = Finished false c.
Proof.
  intros Hok Hl. destruct (loop_cont m ph) as [|c k] eqn:Hc; [|done].
  destruct ph as [j r| |pk c|pk c rest|[|] c]; simpl in *; try done.
  - destruct Hok as [[Hjn Hr]|[-> ->]].
    + destruct (lookup_lt_is_Some_2 _ _ Hjn) as [s Hs].
      rewrite (loop_rest_lookup _ _ _ Hs) in Hc.
      by destruct r as [|[|[|r]]]; [| | |lia].
    + by rewrite loop_rest_end in Hc.
  - by destruct rest.
  - by eexists.
Qed.

Lemma loop_cont_Crash (ph : phase) :
  phase_ok m ph -> loop_cont m ph = [Crash] -> ∃ c, ph = Finished true c.
Proof.
  intros Hok Hl.
  destruct ph as [j r| |pk c|pk c rest|[|] c]; simpl in *; try done.
  - destruct Hok as [[Hjn Hr]|[-> ->]].
    + destruct (lookup_lt_is_Some_2 _ _ Hjn) as [s Hs].
      rewrite (loop_rest_lookup _ _ _ Hs) in Hl.
      by destruct r as [|[|[|r]]]; [| | |lia].
    + by rewrite loop_rest_end in Hl.
  - by destruct rest.
  - by eexists.
Qed.

Lemma loop_returned (pm : nat) (ph : phase) (sp : list (list stmt)) (st : State) :
  InvAt m pm ph sp st -> goroutines st !! 1%nat = Some [] ->
  (2 ≤ pm)%nat ∧ ph = Finished false (length (scrapers m)).
Proof.
  intros Hinv Hg.
  destruct (decide (pm < 2)%nat) as [Hlt|?].
  { by rewrite (loop_absent _ _ _ _ _ Hinv Hlt) in Hg. }
  rewrite (loop_lookup _ _ _ _ _ Hinv) in Hg by lia. injection Hg as Hl.
  split; [lia|].
  pose proof (inv_phase _ _ _ _ _ Hinv) as Hph.
  destruct (loop_cont_nil _ Hph Hl) as [c ->].
  simpl in Hph. by rewrite Hph.
Qed.

Lemma loop_crashing (pm : nat) (ph : phase) (sp : list (list stmt)) (st : State) :
  InvAt m pm ph sp st -> goroutines st !! 1%nat = Some [Crash] ->
  (2 ≤ pm)%nat ∧ ∃ c, ph = Finished true c ∧ (c < length (scrapers m))%nat.
Proof.
  intros Hinv Hg.
  destruct (decide (pm < 2)%nat) as [Hlt|?].
  { by rewrite (loop_absent _ _ _ _ _ Hinv Hlt) in Hg. }
  rewrite (loop_lookup _ _ _ _ _ Hinv) in Hg by lia. injection Hg as Hl.
  split; [lia|].
  pose proof (inv_phase _ _ _ _ _ Hinv) as Hph.
  destruct (loop_cont_Crash _ Hph Hl) as [c ->].
  exists c. split; [done|]. destruct Hph as (s & Hs & _).
  by eapply lookup_lt_Some.
Qed.

Lemma spawn_count_le (ph : phase) :
  phase_ok m ph -> (spawn_count m ph ≤ 2 * length (scrapers m))%nat.
Proof.
  destruct ph as [j r| |pk c|pk c rest|pk c]; simpl; try lia.
  - intros Hc. pose proof (count_ok_lt _ _ _ Hc). lia.
  - intros [Hc _]. pose proof (count_ok_lt _ _ _ Hc). lia.
  - intros Hc. pose proof (count_ok_lt _ _ _ Hc). lia.
Qed.

Lemma ticker_count_le (ph : phase) :
  phase_ok m ph -> (ticker_count m ph ≤ length (scrapers m))%nat.
Proof.
  destruct ph as [j [|r]| |pk c|pk c rest|pk c]; simpl; try lia.
  - intros Hc. pose proof (count_ok_lt _ _ _ Hc). lia.
  - intros [Hc _]. pose proof (count_ok_lt _ _ _ Hc). lia.
  - intros Hc. pose proof (count_ok_lt _ _ _ Hc). lia.
Qed.

(** X12. The manager starts a bounded number of goroutines and tickers:
    beside its caller and [healthcheckLoop] there are never more than two
    goroutines per scraper, and never more than one ticker per scraper; a
    tick starts none. When [healthcheckLoop] has come to its end without a
    panic there are exactly two per scraper; when it has panicked there
    are fewer. *)
Theorem goroutines_bounded (st : State) :
  fresh m -> reachable m st ->
  (length (goroutines st) ≤ 2 + 2 * length (scrapers m))%nat
  ∧ (∀ t, is_Some (tickers st !! t) -> (t < length (scrapers m))%nat)
  ∧ (goroutines st !! 1%nat = Some [] ->
     panicked st = false
     ∧ length (goroutines st) = (2 + 2 * length (scrapers m))%nat)
  ∧ (goroutines st !! 1%nat = Some [Crash] ->
     panicked st = true
     ∧ (length (goroutines st) < 2 + 2 * length (scrapers m))%nat).
Proof.
  intros Hf Hr.
  destruct (reachable_inv _ _ Hf Hr) as [(pm & ph & sp & Hinv)|Hdead].
  - pose proof (spawn_count_le _ (inv_phase _ _ _ _ _ Hinv)) as Hsc.
    pose proof (ticker_count_le _ (inv_phase _ _ _ _ _ Hinv)) as Htc.
    pose proof (inv_count _ _ _ _ _ Hinv) as Hcnt.
    pose proof (inv_panicked _ _ _ _ _ Hinv) as Hp.
    split; [|split; [|split]].
    + rewrite (inv_goroutines _ _ _ _ _ Hinv).
      destruct (decide (pm < 2)%nat); simpl; lia.
    + intros t Ht. apply (inv_tickers _ _ _ _ _ Hinv) in Ht. lia.
    + intros Hg. destruct (loop_returned _ _ _ _ Hinv Hg) as [H2 ->].
      split; [done|].
      rewrite (inv_goroutines _ _ _ _ _ Hinv).
      destruct (decide (pm < 2)%nat); [lia|]. simpl. rewrite Hcnt. simpl. lia.
    + intros Hg. destruct (loop_crashing _ _ _ _ Hinv Hg) as (H2 & c & -> & Hc).
      split; [done|].
      rewrite (inv_goroutines _ _ _ _ _ Hinv).
      destruct (decide (pm < 2)%nat); [lia|]. simpl. rewrite Hcnt. simpl. lia.
  - destruct Hdead as (Hg & Ht & _). rewrite Hg, Ht. simpl.
    split; [lia|]. split; [|done].
    intros t [tk Htk]. by rewrite lookup_empty in Htk.
Qed.

(** X14. The pings the goroutines send: each went to the ping URL, not
    empty, of a scraper the manager holds, and the check of that scraper
    returns a healthy result. *)
Theorem pinged_only_healthy_scrapers (st : State) (u : string) :
  fresh m -> reachable m st -> u ∈ pinged st ->
  ∃ s r, s ∈ scrapers m
    ∧ u = I_GetPingURL s ∧ u ≠ ""
    ∧ I_Scrape s (context_WithTimeout 30) = Ok r ∧ Healthy r = true.
Proof.
  intros Hf Hr Hu.
  destruct (reachable_inv _ _ Hf Hr)
    as [(pm & ph & sp & Hinv)|(_ & _ & _ & _ & Hpg & _)].
  - by apply (inv_pinged _ _ _ _ _ Hinv).
  - by apply Hpg.
Qed.

(** X15. Ticker [t] is the ticker of the scraper at index [t]. Its period
    is the int64 product of that scraper's interval, or of 30 when the
    scraper reports an interval that is not positive, with
    [time.Second]: the interval in nanoseconds as long as it is at most
    9223372036 seconds, a wrapped value beyond. The period of a ticker
    that exists is positive: where the product is not, no ticker is
    created. *)
Theorem tickers_follow_intervals (st : State) (t : nat) (tk : Ticker) :
  fresh m -> reachable m st -> tickers st !! t = Some tk ->
  ∃ s, scrapers m !! t = Some s
    ∧ period tk = int64 (tickerInterval s * Second)
    ∧ 0 < period tk
    ∧ (I_GetScrapeInterval s <= 0 -> period tk = 30 * Second)
    ∧ (0 < I_GetScrapeInterval s <= 9223372036 ->
       period tk = I_GetScrapeInterval s * Second).
Proof.
  intros Hf Hr Ht.
  destruct (reachable_inv _ _ Hf Hr) as [(pm & ph & sp & Hinv)|Hdead].
  - destruct (inv_tickers_ok _ _ _ _ _ Hinv _ _ Ht) as (s & Hs & Hper & Hpos & _).
    exists s. split; [done|]. split; [done|]. split; [done|].
    rewrite Hper. split.
    + intros Hle. rewrite tickerDuration_small; unfold tickerInterval;
        destruct (decide (I_GetScrapeInterval s <= 0)); try done; lia.
    + intros Hle. rewrite tickerDuration_small; unfold tickerInterval;
        destruct (decide (I_GetScrapeInterval s <= 0)); try done; lia.
  - destruct Hdead as (_ & Htk & _). by rewrite Htk, lookup_empty in Ht.
Qed.

(** X16. The deferred closure of [healthcheckLoop] stops the tickers.
    When [healthcheckLoop] has returned there is one ticker per scraper,
    every one of them is stopped and the runtime delivers no further
    tick. As long as the stop channel is open and nothing has panicked,
    every ticker that exists is running. When [healthcheckLoop] has
    panicked and is through its deferred calls, the tickers it had
    created are stopped, whether the stop channel is open or not. The
    source keeps the tickers in a map keyed by the scraper, which holds
    every ticker created when the scrapers are distinct objects, as
    [Initialize] builds them. *)
Theorem tickers_stopped_on_return (st : State) :
  fresh m -> reachable m st ->
  (goroutines st !! 1%nat = Some [] ->
     (∀ t, is_Some (tickers st !! t) ↔ (t < length (scrapers m))%nat)
     ∧ (∀ t tk, tickers st !! t = Some tk -> running tk = false)
     ∧ (∀ t, exec (Fire t) st = None))
  ∧ (stopChan (mgr st) = false -> panicked st = false ->
     ∀ t tk, tickers st !! t = Some tk -> running tk = true)
  ∧ (goroutines st !! 1%nat = Some [Crash] ->
     ∀ t tk, tickers st !! t = Some tk -> running tk = false).
Proof.
  intros Hf Hr.
  destruct (reachable_inv _ _ Hf Hr) as [(pm & ph & sp & Hinv)|Hdead].
  - pose proof (inv_tickers_ok _ _ _ _ _ Hinv) as Htk.
    split; [|split].
    + intros Hg. destruct (loop_returned _ _ _ _ Hinv Hg) as [H2 ->].
      assert (Hstopped : ∀ t tk, tickers st !! t = Some tk -> running tk = false).
      { intros t tk Ht. by destruct (Htk _ _ Ht) as (s & _ & _ & _ & ->). }
      split; [|split].
      * intros t. by rewrite (inv_tickers _ _ _ _ _ Hinv).
      * done.
      * intros t. unfold exec.
        destruct (tickers st !! t) as [tk|] eqn:Ht; [|done].
        by rewrite (Hstopped _ _ Ht).
    + intros Hopen Hnp t tk Ht.
      destruct (Htk _ _ Ht) as (s & _ & _ & _ & ->).
      rewrite (inv_stopChan _ _ _ _ _ Hinv) in Hopen.
      apply bool_decide_eq_false_1 in Hopen.
      rewrite (inv_panicked _ _ _ _ _ Hinv) in Hnp.
      pose proof (inv_closed _ _ _ _ _ Hinv) as Hc.
      destruct ph as [j r| |pk c|pk c rest|pk c]; simpl in *; try done;
        subst; specialize (Hc ltac:(done)); lia.
    + intros Hg t tk Ht.
      destruct (loop_crashing _ _ _ _ Hinv Hg) as (_ & c & -> & _).
      by destruct (Htk _ _ Ht) as (s & _ & _ & _ & ->).
  - destruct Hdead as (Hg & Ht & _). rewrite Hg, Ht.
    split; [done|]. split; [|done].
    intros _ _ t tk Htk. by rewrite lookup_empty in Htk.
Qed.

(** X17. [Stop] must not be called twice: once [Stop] has returned, a
    second call panics at once, on closing the stop channel that is
    closed already. *)
Theorem Stop_again_panics (st : State) :
  fresh m -> reachable m st -> Stop_returned st ->
  ∃ st', exec (Run 0) (Stop_again st) = Some st' ∧ panicked st' = true.
Proof.
  intros Hf Hr Hret.
  destruct (reachable_inv _ _ Hf Hr) as [(pm & ph & sp & Hinv)|Hdead].
  - pose proof (inv_stopChan _ _ _ _ _ Hinv) as Hsc.
    destruct (returned_inv _ _ _ _ _ Hinv Hret) as (-> & _).
    unfold exec, Stop_again. simpl.
    rewrite list_lookup_insert_eq by (by eapply lookup_lt_Some).
    simpl. rewrite Hsc. simpl. eexists. split; [reflexivity|]. done.
  - destruct Hdead as (Hg & _). unfold Stop_returned in Hret.
    by rewrite Hg in Hret.
Qed.

(** Once the stop channel is closed, a goroutine started by
    [healthcheckLoop] that has not finished can take a step, and has one
    statement less to execute. *)
Lemma worker_finish (pm : nat) (ph : phase) (sp : list (list stmt))
    (st : State) (i : nat) (c : stmt) (k : list stmt) :
  InvAt m pm ph sp st -> stopChan (mgr st) = true ->
  sp !! i = Some (c :: k) ->
  ∃ st' k', exec (Run (S (S i))) st = Some st'
    ∧ InvAt m pm ph (<[i := k']> sp) st'
    ∧ (length k' ≤ length k)%nat.
Proof.
  intros Hinv Hc Hk.
  assert (Hen : is_Some (exec (Run (S (S i))) st)).
  { unfold exec. rewrite (worker_lookup _ _ _ _ _ _ Hinv), Hk.
    rewrite <- (worker_lookup _ _ _ _ _ _ Hinv) in Hk.
    destruct (head_worker _ _ _ _ _ _ _ _ Hinv Hk)
      as (j & s & _ & [(-> & _)|(-> & _)]); simpl; [done|].
    by rewrite Hc. }
  destruct Hen as [st' Hex].
  destruct (worker_run _ _ _ _ _ _ _ Hinv Hex) as (c0 & k0 & k' & Hk0 & Hlen & Hinv').
  simplify_eq. by exists st', k'.
Qed.

Lemma all_nil_or_busy (sp : list (list stmt)) :
  Forall (λ k, k = []) sp ∨ ∃ i c k, sp !! i = Some (c :: k).
Proof.
  induction sp as [|[|c k] sp IH].
  - left. constructor.
  - destruct IH as [IH|(i & c & k & Hi)].
    + left. by constructor.
    + right. by exists (S i), c, k.
  - right. by exists 0%nat, c, k.
Qed.

Lemma sum_length_insert (sp : list (list stmt)) :
  ∀ i x y, sp !! i = Some x ->
    (sum_list (length <$> <[i := y]> sp) + length x
     = sum_list (length <$> sp) + length y)%nat.
Proof.
  induction sp as [|z sp IH]; intros i x y Hi; [done|].
  destruct i as [|i]; csimpl in *.
  - simplify_eq. lia.
  - specialize (IH _ _ y Hi). lia.
Qed.

Lemma drained_from (n : nat) :
  ∀ c sp st,
    InvAt m 4 (Finished false c) sp st ->
    (sum_list (length <$> sp) ≤ n)%nat ->
    ∃ acts st', run acts st = Some st'
      ∧ Forall (λ k, k = []) (goroutines st')
      ∧ goroutines st' ≠ []
      ∧ panicked st' = false.
Proof.
  assert (Hdone : ∀ c sp st, InvAt m 4 (Finished false c) sp st ->
            Forall (λ k, k = []) sp ->
            ∃ acts st', run acts st = Some st'
              ∧ Forall (λ k, k = []) (goroutines st')
              ∧ goroutines st' ≠ []
              ∧ panicked st' = false).
  { intros c sp st Hinv Hall. exists [], st. split; [done|].
    rewrite (inv_goroutines _ _ _ _ _ Hinv), (inv_panicked _ _ _ _ _ Hinv).
    simpl. split; [|done]. constructor; [done|]. by constructor. }
  induction n as [|n IH]; intros c0 sp st Hinv Hn.
  - destruct (all_nil_or_busy sp) as [?|(i & c & k & Hi)]; [by eapply Hdone|].
    pose proof (sum_length_insert sp i (c :: k) [] Hi) as Hsum.
    simpl in Hsum. lia.
  - destruct (all_nil_or_busy sp) as [Hall|(i & c & k & Hi)];
      [by eapply Hdone|].
    assert (Hc : stopChan (mgr st) = true)
      by (by rewrite (inv_stopChan _ _ _ _ _ Hinv)).
    destruct (worker_finish _ _ _ _ _ _ _ Hinv Hc Hi)
      as (st1 & k' & Hex & Hinv1 & Hlen).
    pose proof (sum_length_insert sp i (c :: k) k' Hi) as Hsum.
    simpl in Hsum.
    destruct (IH _ _ _ Hinv1 ltac:(lia)) as (acts & st' & Hrun & Hall).
    exists (Run (S (S i)) :: acts), st'. cbn [run]. by rewrite Hex.
Qed.

(** X13. The goroutines can always be brought to an end. When no ticker
    duration wraps around to a value that is not positive, then from
    every state a started manager can reach some schedule leads to a
    state in which every goroutine has finished, the caller of [Stop],
    [healthcheckLoop], the initial checks and the ticker loops, and
    nothing has panicked. No goroutine is left that could never exit. *)
Theorem all_goroutines_can_exit (st : State) :
  fresh m -> durations_positive m -> reachable m st ->
  ∃ acts st', run acts st = Some st'
    ∧ Forall (λ k, k = []) (goroutines st')
    ∧ goroutines st' ≠ []
    ∧ panicked st' = false.
Proof.
  intros Hf Hdur Hr.
  destruct (positive_alive _ _ Hdur (reachable_inv _ _ Hf Hr))
    as (pm & ph & sp & Hinv & _).
  destruct (joined_from _ _ Hdur _ _ _ _ Hinv (Nat.le_refl _))
    as (acts1 & st1 & sp1 & c & Hrun1 & Hinv1).
  destruct (drained_from _ _ _ _ Hinv1 (Nat.le_refl _))
    as (acts2 & st2 & Hrun2 & Hall).
  exists (acts1 ++ acts2), st2. split; [by eapply run_app|done].
Qed.

(** X18. A goroutine started by [healthcheckLoop] waits for nothing but
    its own ticker and the stop channel: it cannot take a step exactly
    when it is at its select, the stop channel is open and no tick is
    waiting in its ticker. *)
Theorem worker_blocked_iff (st : State) (i : nat) (c : stmt) (k : list stmt) :
  fresh m -> reachable m st ->
  goroutines st !! S (S i) = Some (c :: k) ->
  (exec (Run (S (S i))) st = None ∧ exec (RunTick (S (S i))) st = None)
  ↔ ∃ t b, c = ForSelect t b
      ∧ stopChan (mgr st) = false
      ∧ ∀ tk, tickers st !! t = Some tk -> pending tk = false.
Proof.
  intros Hf Hr Hg.
  destruct (reachable_inv _ _ Hf Hr) as [(pm & ph & sp & Hinv)|Hdead];
    [|destruct Hdead as (Hg0 & _); by rewrite Hg0 in Hg].
  unfold exec. rewrite Hg.
  destruct (head_worker _ _ _ _ _ _ _ _ Hinv Hg)
    as (j & s & _ & [(-> & _)|(-> & _)]); simpl.
  - split; [by intros [? _]|]. by intros (t & b & ? & _).
  - split.
    + intros [Hrun Htick]. eexists _, _. split; [done|].
      destruct (stopChan (mgr st)); [done|]. split; [done|].
      intros tk Htk. rewrite Htk in Htick. by destruct (pending tk).
    + intros (t' & b' & [= <- <-] & Hopen & Hpend). rewrite Hopen.
      split; [done|].
      destruct (tickers st !! j) as [tk|] eqn:Htk; [|done].
      by rewrite (Hpend _ eq_refl).
Qed.

(** X19. The counter of the wait group counts [healthcheckLoop] and
    nothing else: it is always zero or one, and once [Start] has started
    [healthcheckLoop] it is zero exactly when [healthcheckLoop] is
    through its deferred [m.wg.Done()]: it has returned, or it has
    panicked and only the end of the process is left to it. As long as
    the process lives, the stop channel is closed exactly when [Stop]
    has closed it; and [healthcheckLoop] does not return while it is
    open. *)
Theorem wait_group_counts_healthcheckLoop (st : State) :
  fresh m -> reachable m st ->
  (wg (mgr st) = 0 ∨ wg (mgr st) = 1)
  ∧ ((2 ≤ length (goroutines st))%nat ->
     (wg (mgr st) = 0
      ↔ goroutines st !! 1%nat = Some []
        ∨ goroutines st !! 1%nat = Some [Crash]))
  ∧ (goroutines st ≠ [] ->
     (stopChan (mgr st) = true
      ↔ goroutines st !! 0%nat = Some [WgWait]
        ∨ goroutines st !! 0%nat = Some []))
  ∧ (goroutines st !! 1%nat = Some [] -> stopChan (mgr st) = true).
Proof.
  intros Hf Hr.
  destruct (reachable_inv _ _ Hf Hr) as [(pm & ph & sp & Hinv)|Hdead].
  - pose proof (inv_wg _ _ _ _ _ Hinv) as Hwg.
    pose proof (inv_stopChan _ _ _ _ _ Hinv) as Hsc.
    pose proof (inv_goroutines _ _ _ _ _ Hinv) as Hg.
    pose proof (inv_pm _ _ _ _ _ Hinv) as Hpm.
    pose proof (inv_phase _ _ _ _ _ Hinv) as Hph.
    split; [|split; [|split]].
    + rewrite Hwg. destruct pm; simpl; [by left|].
      destruct (is_Finished ph); auto.
    + intros Hlen.
      assert (H2 : (2 ≤ pm)%nat).
      { rewrite Hg in Hlen. destruct (decide (pm < 2)%nat); [simpl in Hlen|]; lia. }
      split.
      * intros Hz. rewrite (loop_lookup _ _ _ _ _ Hinv H2).
        rewrite Hwg in Hz. destruct pm as [|pm]; [lia|]. simpl in Hz.
        destruct ph as [j r| |pk c|pk c rest|[|] c]; simpl in *; try done; auto.
      * intros [Hl|Hl].
        -- destruct (loop_returned _ _ _ _ Hinv Hl) as [_ ->].
           rewrite Hwg. by destruct pm.
        -- destruct (loop_crashing _ _ _ _ Hinv Hl) as (_ & c & -> & _).
           rewrite Hwg. by destruct pm.
    + intros _. rewrite Hsc, Hg. simpl.
      destruct pm as [|[|[|[|[|pm]]]]]; try lia;
        cbv [main_cont Start Stop drop app]; simpl;
        (split; [try done|intros [?|?]; by simplify_eq]); auto.
    + intros Hex. destruct (loop_returned _ _ _ _ Hinv Hex) as [_ ->].
      rewrite Hsc. apply bool_decide_eq_true_2.
      by apply (inv_closed _ _ _ _ _ Hinv).
  - destruct Hdead as (Hg & _ & _ & Hwg & _). rewrite Hg, Hwg. simpl.
    split; [by left|]. split; [lia|]. done.
Qed.

(** X20. The ticker loops run until the stop signal, unless the process
    ends before. While the stop channel is open [healthcheckLoop] has not
    returned and every ticker loop that was started is still in its
    loop, at its select or in a check; and when no ticker duration wraps
    around to a value that is not positive the process lives. *)
Theorem tickerLoops_run_until_stop (st : State) :
  fresh m -> reachable m st -> stopChan (mgr st) = false ->
  goroutines st !! 1%nat ≠ Some []
  ∧ (∀ j k, goroutines st !! (2 * j + 3)%nat = Some k ->
       in_tickerLoop st (2 * j + 3))
  ∧ (durations_positive m -> goroutines st ≠ [] ∧ panicked st = false).
Proof.
  intros Hf Hr Hopen.
  destruct (reachable_inv _ _ Hf Hr) as [(pm & ph & sp & Hinv)|Hdead].
  - split; [|split].
    + intros Hg. destruct (loop_returned _ _ _ _ Hinv Hg) as [_ ->].
      rewrite (inv_stopChan _ _ _ _ _ Hinv) in Hopen.
      apply bool_decide_eq_false_1 in Hopen.
      pose proof (inv_closed _ _ _ _ _ Hinv eq_refl). lia.
    + intros j k Hg.
      replace (2 * j + 3)%nat with (S (S (2 * j + 1))) in * by lia.
      pose proof Hg as Hg'.
      rewrite (worker_lookup _ _ _ _ _ _ Hinv) in Hg.
      destruct (inv_workers _ _ _ _ _ Hinv _ _ Hg)
        as (j' & s & Hs & [[Hi _]|[_ Hsh]]); [lia|].
      exists k. unfold tickerLoop in Hsh.
      destruct Hsh as [->|[->| ->]].
      * eexists _, _. split; [done|]. apply list_elem_of_here.
      * eexists _, _. split; [done|].
        apply list_elem_of_further, list_elem_of_here.
      * by destruct (inv_alive _ _ _ _ _ Hinv Hopen j).
    + intros Hdur. split.
      * by rewrite (inv_goroutines _ _ _ _ _ Hinv).
      * rewrite (inv_panicked _ _ _ _ _ Hinv).
        by eapply positive_no_panic.
  - destruct Hdead as (Hg & _ & _ & _ & _ & Hbad). rewrite Hg.
    split; [done|]. split; [done|]. done.
Qed.

End MoreGoroutineFacts.

(** ** The further properties on the test data *)

Section MoreOnTestData.

Import scraper healthcheck testdata.

Lemma Scrape_healthy_only_if_witness :
  ∃ r req resp t,
    Scrape (NewCloudflaredTunnelScraper "http://healthy.test/ready" "" 30) deadline
    = Ok r
    ∧ client_Do {| Timeout := 10 |} req = Ok resp
    ∧ StatusCode resp = 200
    ∧ json_Decode (Body resp) = Ok t
    ∧ ReadyConnections t > 0.
Proof.
  assert (Hs : ∃ r,
    Scrape (NewCloudflaredTunnelScraper "http://healthy.test/ready" "" 30) deadline
    = Ok r ∧ Healthy r = true).
  { eexists. split; vm_compute; reflexivity. }
  destruct Hs as (r & Hr & Hh).
  destruct (Scrape_healthy_only_if _ _ r Hr Hh)
    as (req & resp & t & _ & Hdo & Hcode & Hdec & _ & Hrc & _).
  exists r, req, resp, t. repeat split; assumption.
Defined.

Lemma Scrape_error_details_witness :
  (∃ r, Scrape (NewCloudflaredTunnelScraper "http://nowhere.test/ready" "" 30) deadline
        = Ok r
        ∧ Details r = {[ "error" := VString "dial tcp: connect: connection refused" ]})
  ∧ (∃ r, Scrape (NewCloudflaredTunnelScraper "http://garbage.test/ready" "" 30) deadline
          = Ok r
          ∧ Details r
            = {[ "error" := VString "invalid character 'i' looking for beginning of value" ]}).
Proof.
  split.
  - exact (proj1 (Scrape_error_details
                    (NewCloudflaredTunnelScraper "http://nowhere.test/ready" "" 30)
                    deadline)
             "http://nowhere.test/ready" _ eq_refl eq_refl).
  - exact (proj2 (Scrape_error_details
                    (NewCloudflaredTunnelScraper "http://garbage.test/ready" "" 30)
                    deadline)
             "http://garbage.test/ready"
             {| StatusCode := 200; Body := "invalid json" |} _
             eq_refl eq_refl eq_refl eq_refl).
Defined.

Lemma CreateScraper_accessors_witness :
  I_Type probe1 = "cloudflared-tunnel-connector"
  ∧ I_GetPingURL probe1 = "http://localhost:8081/ping"
  ∧ I_GetScrapeInterval probe1 = 120
  ∧ is_Err (CreateScraper NewFactory unknown).
Proof.
  destruct (proj2 (CreateScraper_accessors NewFactory (tunnel 120)) probe1 eq_refl)
    as (Ht & Hp & Hi).
  split; [exact Ht|]. split; [exact Hp|]. split; [exact Hi|].
  apply (proj1 (CreateScraper_accessors NewFactory unknown)). discriminate.
Defined.

Lemma Initialize_only_appends_witness :
  (Initialize (NewManager {| config.Scrapers := [tunnel 120; tunnel 0] |})).2 = None
  ∧ (Initialize (NewManager {| config.Scrapers := [tunnel 120; unknown] |})).2 ≠ None
  ∧ stopChan (Initialize (NewManager {| config.Scrapers := [tunnel 120; unknown] |})).1
    = false.
Proof.
  split; [|split].
  - apply (proj1 (proj2 (proj2 (proj2 (proj2 (proj2
             (Initialize_only_appends
                (NewManager {| config.Scrapers := [tunnel 120; tunnel 0] |})))))))).
    repeat constructor.
  - intros Hn.
    apply (proj1 (proj2 (proj2 (proj2 (proj2 (proj2
             (Initialize_only_appends
                (NewManager {| config.Scrapers := [tunnel 120; unknown] |})))))))) in Hn.
    apply Forall_cons in Hn as [_ Hn]. apply Forall_cons in Hn as [Hn _].
    discriminate Hn.
  - exact (proj1 (proj2 (proj2 (proj2
             (Initialize_only_appends
                (NewManager {| config.Scrapers := [tunnel 120; unknown] |})))))).
Defined.

Lemma Initialize_twice_appends_twice_witness :
  scrapers (Initialize manager1).1 = [probe1; probe1].
Proof.
  unfold manager1.
  rewrite (Initialize_twice_appends_twice
             (NewManager {| config.Scrapers := [tunnel 120] |})).
  - reflexivity.
  - repeat constructor.
Defined.

Lemma runSingleHealthcheck_pings_witness :
  runSingleHealthcheck manager1 probe1 = ["http://localhost:8081/ping"]
  ∧ (length (runSingleHealthcheck manager1 (probe_of unknown)) ≤ 1)%nat.
Proof.
  split.
  - assert (Hs : ∃ r, I_Scrape probe1 (context_WithTimeout 30) = Ok r
                      ∧ Healthy r = true).
    { eexists. split; vm_compute; reflexivity. }
    destruct Hs as (r & Hr & Hh).
    apply (proj2 (proj2 (runSingleHealthcheck_pings manager1 probe1))
             r "http://localhost:8081/ping" Hr Hh).
    + discriminate.
    + reflexivity.
  - apply (proj1 (runSingleHealthcheck_pings manager1 (probe_of unknown))).
Defined.

Lemma ping_means_tunnel_ready_witness :
  ∃ req resp t,
    http_NewRequestWithContext (context_WithTimeout 30) "GET"
      "http://healthy.test/ready" = Ok req
    ∧ client_Do {| Timeout := 10 |} req = Ok resp
    ∧ StatusCode resp = 200
    ∧ json_Decode (Body resp) = Ok t
    ∧ Status t = 200
    ∧ ReadyConnections t > 0.
Proof.
  apply (ping_means_tunnel_ready manager1 (tunnel 120) "http://localhost:8081/ping").
  vm_compute. apply list_elem_of_here.
Defined.

Lemma main_outcomes_witness :
  cmd.main Unmarshal {[ "HEALTHCHECK_SCRAPERS" := "[]" ]} = cmd.Return
  ∧ cmd.main Unmarshal {[ "HEALTHCHECK_SCRAPERS" := "[tunnel]" ]}
    = cmd.Started (boot manager1)
  ∧ cmd.main Unmarshal {[ "HEALTHCHECK_SCRAPERS" := "invalid json" ]}
    = cmd.Fatal "Failed to load configuration"
        ("failed to parse HEALTHCHECK_SCRAPERS JSON: "
         +:+ "invalid character 'i' looking for beginning of value").
Proof.
  split; [|split].
  - apply (proj1 (main_outcomes Unmarshal {[ "HEALTHCHECK_SCRAPERS" := "[]" ]})).
    reflexivity.
  - apply (proj1 (proj2 (main_outcomes Unmarshal
                           {[ "HEALTHCHECK_SCRAPERS" := "[tunnel]" ]}))).
    exists [tunnel 120]. split; [reflexivity|]. split; [discriminate|].
    split; [repeat constructor|reflexivity].
  - apply (proj2 (proj2 (proj2 (main_outcomes Unmarshal
                           {[ "HEALTHCHECK_SCRAPERS" := "invalid json" ]})))).
    left. split; reflexivity.
Defined.

Lemma start_then_stop_reachable :
  reachable manager1 (state_after start_then_stop).
Proof. exists start_then_stop. vm_compute. reflexivity. Qed.

Lemma first_check_reachable :
  reachable manager1 (state_after (until_tick ++ [Run 2%nat])).
Proof. exists (until_tick ++ [Run 2%nat]). vm_compute. reflexivity. Qed.

Lemma range_done_reachable :
  reachable manager1 (state_after (removelast until_tick)).
Proof. exists (removelast until_tick). vm_compute. reflexivity. Qed.

Lemma manager2_fresh : fresh manager2.
Proof. split; reflexivity. Qed.

Lemma until_overflow_reachable :
  reachable manager2 (state_after2 until_overflow).
Proof. exists until_overflow. vm_compute. reflexivity. Qed.

Lemma overflow_deferred_reachable :
  reachable manager2
    (state_after2 (until_overflow ++ [Run 1; Run 1; Run 1]%nat)).
Proof.
  exists (until_overflow ++ [Run 1; Run 1; Run 1]%nat). vm_compute. reflexivity.
Qed.

Lemma Stop_returned_joined_witness :
  stopChan (mgr (state_after start_then_stop)) = true
  ∧ wg (mgr (state_after start_then_stop)) = 0
  ∧ panicked (state_after start_then_stop) = false
  ∧ goroutines (state_after start_then_stop) !! 1%nat = Some [].
Proof.
  destruct (Stop_returned_joined manager1 (state_after start_then_stop)
              manager1_fresh start_then_stop_reachable
              ltac:(vm_compute; reflexivity))
    as (Hc & Hw & Hg & _ & Hp).
  split; [exact Hc|]. split; [exact Hw|].
  split; [exact (Hp manager1_durations)|exact (Hg (Hp manager1_durations))].
Defined.

Lemma Stop_can_return_witness :
  ∃ acts st', run acts (state_after until_tick) = Some st'
    ∧ Stop_returned st' ∧ panicked st' = false.
Proof.
  exact (Stop_can_return manager1 (state_after until_tick)
           manager1_fresh manager1_durations until_tick_reachable).
Defined.

Lemma never_panics_witness :
  panicked (state_after tick_then_stop) = false
  ∧ ¬ (∀ st, reachable manager2 st -> panicked st = false).
Proof.
  split.
  - exact (proj2 (never_panics manager1 manager1_fresh) manager1_durations
             (state_after tick_then_stop) tick_then_stop_reachable).
  - intros Hall. apply (proj1 (never_panics manager2 manager2_fresh)) in Hall.
    apply Forall_cons in Hall as [_ Hall].
    apply Forall_cons in Hall as [Hall _].
    vm_compute in Hall. discriminate Hall.
Defined.

Lemma goroutines_bounded_witness :
  (length (goroutines (state_after tick_then_stop)) ≤ 4)%nat
  ∧ length (goroutines (state_after tick_then_stop)) = 4%nat
  ∧ (length (goroutines (state_after2 (until_overflow ++ [Run 1; Run 1; Run 1]%nat)))
     < 6)%nat.
Proof.
  destruct (goroutines_bounded manager1 (state_after tick_then_stop)
              manager1_fresh tick_then_stop_reachable) as (Hle & _ & Heq & _).
  destruct (goroutines_bounded manager2
              (state_after2 (until_overflow ++ [Run 1; Run 1; Run 1]%nat))
              manager2_fresh overflow_deferred_reachable) as (_ & _ & _ & Hlt).
  split; [exact Hle|]. split.
  - apply Heq. vm_compute. reflexivity.
  - apply Hlt. vm_compute. reflexivity.
Defined.

Lemma all_goroutines_can_exit_witness :
  ∃ acts st', run acts (state_after until_tick) = Some st'
    ∧ Forall (λ k, k = []) (goroutines st')
    ∧ goroutines st' ≠ []
    ∧ panicked st' = false.
Proof.
  exact (all_goroutines_can_exit manager1 (state_after until_tick)
           manager1_fresh manager1_durations until_tick_reachable).
Defined.

Lemma pinged_only_healthy_scrapers_witness :
  ∃ s r, s ∈ scrapers manager1
    ∧ "http://localhost:8081/ping" = I_GetPingURL s
    ∧ I_Scrape s (context_WithTimeout 30) = Ok r ∧ Healthy r = true.
Proof.
  destruct (pinged_only_healthy_scrapers manager1
              (state_after (until_tick ++ [Run 2%nat]))
              "http://localhost:8081/ping"
              manager1_fresh first_check_reachable
              ltac:(vm_compute; apply list_elem_of_here))
    as (s & r & Hs & Hu & _ & Hr & Hh).
  exists s, r. split; [exact Hs|]. split; [exact Hu|]. split; [exact Hr|exact Hh].
Defined.

Lemma tickers_follow_intervals_witness :
  ∃ s, scrapers manager1 !! 0%nat = Some s
    ∧ 120000000000 = int64 (tickerInterval s * Second)
    ∧ (0 < I_GetScrapeInterval s <= 9223372036 ->
       120000000000 = I_GetScrapeInterval s * Second).
Proof.
  destruct (tickers_follow_intervals manager1 (state_after until_tick) 0%nat
              {| period := 120000000000; running := true; pending := true |}
              manager1_fresh until_tick_reachable
              ltac:(vm_compute; reflexivity))
    as (s & Hs & Hp & _ & _ & Hsmall).
  exists s. split; [exact Hs|]. split; [exact Hp|exact Hsmall].
Defined.

Lemma tickers_stopped_on_return_witness :
  (∀ t, exec (Fire t) (state_after start_then_stop) = None)
  ∧ (∀ t tk, tickers (state_after (removelast until_tick)) !! t = Some tk ->
       running tk = true)
  ∧ (∀ t tk,
       tickers (state_after2 (until_overflow ++ [Run 1; Run 1; Run 1]%nat)) !! t
       = Some tk ->
       running tk = false).
Proof.
  split; [|split].
  - apply (proj1 (tickers_stopped_on_return manager1
                    (state_after start_then_stop)
                    manager1_fresh start_then_stop_reachable)).
    vm_compute. reflexivity.
  - apply (proj1 (proj2 (tickers_stopped_on_return manager1
                    (state_after (removelast until_tick))
                    manager1_fresh range_done_reachable))).
    + vm_compute. reflexivity.
    + vm_compute. reflexivity.
  - apply (proj2 (proj2 (tickers_stopped_on_return manager2
                    (state_after2 (until_overflow ++ [Run 1; Run 1; Run 1]%nat))
                    manager2_fresh overflow_deferred_reachable))).
    vm_compute. reflexivity.
Defined.

Lemma Stop_again_panics_witness :
  ∃ st', exec (Run 0) (Stop_again (state_after start_then_stop)) = Some st'
    ∧ panicked st' = true.
Proof.
  exact (Stop_again_panics manager1 (state_after start_then_stop)
           manager1_fresh start_then_stop_reachable
           ltac:(vm_compute; reflexivity)).
Defined.

Lemma worker_blocked_iff_witness :
  exec (Run 3) (state_after (removelast until_tick)) = None
  ∧ exec (RunTick 3) (state_after (removelast until_tick)) = None.
Proof.
  apply (proj2 (worker_blocked_iff manager1 (state_after (removelast until_tick))
                  1%nat (ForSelect 0 [Call_runSingleHealthcheck probe1]) []
                  manager1_fresh range_done_reachable
                  ltac:(vm_compute; reflexivity))).
  exists 0%nat, [Call_runSingleHealthcheck probe1].
  split; [reflexivity|]. split; [vm_compute; reflexivity|].
  intros tk Htk. vm_compute in Htk. injection Htk as <-. reflexivity.
Defined.

Lemma wait_group_counts_healthcheckLoop_witness :
  wg (mgr (state_after start_then_stop)) = 0
  ∧ stopChan (mgr (state_after start_then_stop)) = true
  ∧ wg (mgr (state_after until_tick)) ≠ 0
  ∧ wg (mgr (state_after2 (until_overflow ++ [Run 1; Run 1; Run 1]%nat))) = 0.
Proof.
  destruct (wait_group_counts_healthcheckLoop manager1
              (state_after start_then_stop)
              manager1_fresh start_then_stop_reachable)
    as (_ & Hwg & Hstop & _).
  destruct (wait_group_counts_healthcheckLoop manager1
              (state_after until_tick)
              manager1_fresh until_tick_reachable)
    as (_ & Hwg' & _ & _).
  destruct (wait_group_counts_healthcheckLoop manager2
              (state_after2 (until_overflow ++ [Run 1; Run 1; Run 1]%nat))
              manager2_fresh overflow_deferred_reachable)
    as (_ & Hwg2 & _ & _).
  split; [|split; [|split]].
  - apply Hwg; [vm_compute; lia|]. left. vm_compute. reflexivity.
  - apply Hstop; [vm_compute; discriminate|]. right. vm_compute. reflexivity.
  - intros H0. apply Hwg' in H0; [|vm_compute; lia].
    destruct H0 as [H0|H0]; vm_compute in H0; discriminate H0.
  - apply Hwg2; [vm_compute; lia|]. right. vm_compute. reflexivity.
Defined.

Lemma tickerLoops_run_until_stop_witness :
  goroutines (state_after until_tick) !! 1%nat ≠ Some []
  ∧ in_tickerLoop (state_after until_tick) 3
  ∧ goroutines (state_after until_tick) ≠ [].
Proof.
  destruct (tickerLoops_run_until_stop manager1 (state_after until_tick)
              manager1_fresh until_tick_reachable
              ltac:(vm_compute; reflexivity)) as (H1 & H3 & Hlive).
  split; [exact H1|]. split.
  - apply (H3 0%nat (tickerLoop 0 probe1)). vm_compute. reflexivity.
  - exact (proj1 (Hlive manager1_durations)).
Defined.

End MoreOnTestData.
